(** * ERA reliability dashboard: a shallow embedding of [data.py]

    The script reads outage records from the worksheets of a spreadsheet,
    cleans them, concatenates the per-month tables and computes the
    reliability indices SAIDI, SAIFI and CAIDI per feeder and period.

    Conventions of the embedding:
    - a Python [str] is a list of Unicode code points;
    - in the ingestion, the grouping and the filters a number is an exact
      rational ([Q]) and the missing value (None, NaN, NaT) is [None] of an
      option type: what is stated there concerns rows, keys, order and
      signs;
    - the numbers of the metrics as pandas computes them are in the module
      [Machine]: int64 columns whose sums wrap around, float64 columns
      (primitive binary64 floats) whose sums and quotients round, overflow
      to [inf] and give [nan];
    - library functions whose behaviour is data driven (the Unicode Character
      Database behind [unicodedata.normalize], the parsers behind
      [pd.to_datetime] and [pd.to_numeric], [strftime]) are fields of the
      records [UnicodeData] and [Library], so every result holds for any
      such table or parser;
    - of a DataFrame only the columns the script reads are kept. *)

From Stdlib Require Import String Ascii.
From Stdlib Require Import List Bool Arith NArith ZArith QArith Lia Lqa.
From Stdlib Require Import Permutation Sorted DecimalString.
From Stdlib Require Import Floats.
Import ListNotations.

(** ** Python strings *)

Definition codepoint := N.
Definition pystr := list codepoint.

(** A Rocq string literal read as a Python string of Latin-1 code points. *)
Definition lit (s : string) : pystr := map N_of_ascii (list_ascii_of_string s).

Definition SPACE : codepoint := 0x20%N.
Definition NBSP : codepoint := 0xA0%N.

Definition pystr_eqb (a b : pystr) : bool :=
  if list_eq_dec N.eq_dec a b then true else false.

(** [str.isspace] on one character, the set CPython's
    [_PyUnicode_IsWhitespace] accepts; [str.strip()] and [str.split()]
    without arguments use it. *)
Definition isspace (c : codepoint) : bool :=
  (((0x09 <=? c) && (c <=? 0x0D)) || ((0x1C <=? c) && (c <=? 0x20))
   || (c =? 0x85) || (c =? 0xA0) || (c =? 0x1680)
   || ((0x2000 <=? c) && (c <=? 0x200A))
   || (c =? 0x2028) || (c =? 0x2029) || (c =? 0x202F) || (c =? 0x205F)
   || (c =? 0x3000))%N.

Fixpoint lstrip (s : pystr) : pystr :=
  match s with
  | [] => []
  | c :: s' => if isspace c then lstrip s' else s
  end.

Definition rstrip (s : pystr) : pystr := rev (lstrip (rev s)).

(** [s.strip()] *)
Definition strip (s : pystr) : pystr := rstrip (lstrip s).

(** [s.replace('\xa0', ' ')]: both strings have one character. *)
Definition replace_nbsp (s : pystr) : pystr :=
  map (fun c => if (c =? NBSP)%N then SPACE else c) s.

(** [s.split()]: the maximal runs of non-whitespace characters, in order.
    A character that is not whitespace extends the first run of the rest
    when the rest begins with one, and is a run of its own otherwise. *)
Definition starts_token (s : pystr) : bool :=
  match s with
  | [] => false
  | c :: _ => negb (isspace c)
  end.

Fixpoint split (s : pystr) : list pystr :=
  match s with
  | [] => []
  | c :: s' =>
      if isspace c then split s'
      else match split s' with
           | t :: ts => if starts_token s' then (c :: t) :: ts else [c] :: t :: ts
           | [] => [[c]]
           end
  end.

(** [' '.join(ts)] *)
Fixpoint join_space (ts : list pystr) : pystr :=
  match ts with
  | [] => []
  | [t] => t
  | t :: ts' => t ++ SPACE :: join_space ts'
  end.

(** [' '.join(s.split())] *)
Definition collapse (s : pystr) : pystr := join_space (split s).

(** ** The private key of the service account

    [creds_dict["private_key"].replace("\\n", "\n")]: every backslash
    followed by the letter n becomes one line feed; the occurrences are
    taken from the left and do not overlap. *)

Definition BACKSLASH : codepoint := 0x5C%N.
Definition LETTER_N : codepoint := 0x6E%N.
Definition LINE_FEED : codepoint := 0x0A%N.

Fixpoint replace_escaped_newlines (s : pystr) : pystr :=
  match s with
  | [] => []
  | c :: s' =>
      match s' with
      | d :: s'' =>
          if ((c =? BACKSLASH) && (d =? LETTER_N))%N
          then LINE_FEED :: replace_escaped_newlines s''
          else c :: replace_escaped_newlines s'
      | [] => [c]
      end
  end.

(** [s] contains a backslash directly followed by the letter n. *)
Definition has_escaped_newline (s : pystr) : Prop :=
  exists u v, s = u ++ BACKSLASH :: LETTER_N :: v.

(** The text a secrets file holds for a key: every line feed written as a
    backslash and the letter n.  The script has no such function; it states
    what [replace_escaped_newlines] undoes. *)
Definition escape_newlines (s : pystr) : pystr :=
  flat_map (fun c => if (c =? LINE_FEED)%N then [BACKSLASH; LETTER_N] else [c])
           s.

(** ** Unicode normalization

    [unicodedata.normalize] is driven by the Unicode Character Database:
    the full compatibility and canonical decomposition of every code point
    (the code point itself when it has none), the canonical combining class
    and the primary composites. *)

Record UnicodeData := {
  compat_decomposition : codepoint -> pystr;
  canon_decomposition : codepoint -> pystr;
  combining : codepoint -> N;
  composite : codepoint -> codepoint -> option codepoint
}.

Section Normalization.

Variable ucd : UnicodeData.

Let ccc := combining ucd.

(** [c] directly before the mark [p] breaks the canonical order when [p] has
    the lower non-zero class. *)
Definition inversion (c p : codepoint) : bool :=
  ((0 <? ccc p) && (ccc p <? ccc c))%N.

(** Canonical ordering: inside every run of characters of non-zero combining
    class the characters are sorted by class, the order of equal classes
    kept.  [reorder_insert c l] puts [c] in front of the ordered [l] and
    moves it right past the marks of a lower class. *)
Fixpoint reorder_insert (c : codepoint) (l : pystr) : pystr :=
  match l with
  | [] => [c]
  | p :: l' =>
      if inversion c p then p :: reorder_insert c l' else c :: l
  end.

Fixpoint canonical_order (s : pystr) : pystr :=
  match s with
  | [] => []
  | c :: s' => reorder_insert c (canonical_order s')
  end.

(** [unicodedata.normalize("NFKD", s)] *)
Definition normalize_NFKD (s : pystr) : pystr :=
  canonical_order (flat_map (compat_decomposition ucd) s).

(** Canonical composition, for NFC: [L] is the last starter, [marks] the
    characters after it (latest first), [done] what precedes [L] (reversed).
    A character combines with [L] when no character between them has a
    class at least as high and the pair has a primary composite. *)
Fixpoint compose_from (done : pystr) (L : codepoint) (marks : pystr)
         (s : pystr) : pystr :=
  match s with
  | [] => rev done ++ L :: rev marks
  | c :: s' =>
      let blocked := match marks with
                     | [] => false
                     | b :: _ => (ccc c <=? ccc b)%N
                     end in
      match (if blocked then None else composite ucd L c) with
      | Some p => compose_from done p marks s'
      | None =>
          if (ccc c =? 0)%N then compose_from (marks ++ L :: done) c [] s'
          else compose_from done L (c :: marks) s'
      end
  end.

Fixpoint compose (s : pystr) : pystr :=
  match s with
  | [] => []
  | c :: s' => if (ccc c =? 0)%N then compose_from [] c [] s' else c :: compose s'
  end.

(** [unicodedata.normalize("NFC", s)]: canonical decomposition, canonical
    ordering, canonical composition.  The script never calls it. *)
Definition normalize_NFC (s : pystr) : pystr :=
  compose (canonical_order (flat_map (canon_decomposition ucd) s)).

(** A string in canonical order: no adjacent pair is an inversion. *)
Definition canonically_ordered (s : pystr) : Prop :=
  Sorted (fun c p => inversion c p = false) s.

End Normalization.

(** The name normalizer as the specification words it: trim, canonical
    decomposition then recomposition (NFC), non-breaking spaces to spaces,
    runs of whitespace to one space. *)
Definition name_normalizer_spec (ucd : UnicodeData) (x : pystr) : pystr :=
  collapse (replace_nbsp (normalize_NFC ucd (strip x))).

(** Every whitespace character of [s] is one U+0020 between two characters
    that are not whitespace. *)
Definition single_spaced (s : pystr) : Prop :=
  forall u c v, s = u ++ c :: v -> isspace c = true ->
    c = SPACE /\
    (exists u' a, u = u' ++ [a] /\ isspace a = false) /\
    (exists b v', v = b :: v' /\ isspace b = false).

(** Strings that differ by leading or trailing whitespace, by the length of
    a run of spaces, or by a non-breaking space for a space. *)
Inductive whitespace_variant : pystr -> pystr -> Prop :=
| wv_leading w x : isspace w = true -> whitespace_variant (w :: x) x
| wv_trailing w x : isspace w = true -> whitespace_variant (x ++ [w]) x
| wv_run u v : whitespace_variant (u ++ SPACE :: SPACE :: v) (u ++ SPACE :: v)
| wv_nbsp u v : whitespace_variant (u ++ NBSP :: v) (u ++ SPACE :: v)
| wv_refl x : whitespace_variant x x
| wv_sym x y : whitespace_variant x y -> whitespace_variant y x
| wv_trans x y z :
    whitespace_variant x y -> whitespace_variant y z -> whitespace_variant x z.

(** Facts of the Unicode Character Database the results on the normalizer
    rest on.  The decompositions are full: their characters decompose no
    further. *)
Definition fully_decomposed (ucd : UnicodeData) : Prop :=
  forall c d, In d (compat_decomposition ucd c) ->
              compat_decomposition ucd d = [d].

(** U+0020 has no decomposition and is a starter. *)
Definition space_is_inert (ucd : UnicodeData) : Prop :=
  compat_decomposition ucd SPACE = [SPACE] /\ combining ucd SPACE = 0%N.

(** Every whitespace character decomposes to one whitespace starter (itself,
    or U+0020 for the non-breaking and the typographic spaces). *)
Definition whitespace_is_stable (ucd : UnicodeData) : Prop :=
  forall w, isspace w = true ->
            exists w', compat_decomposition ucd w = [w'] /\
                       isspace w' = true /\ combining ucd w' = 0%N.


(** ** Cells, raw records and library functions *)

(** A value of a worksheet cell as [get_all_records] returns it, or a missing
    value of a DataFrame built from the records.  A number of a worksheet is
    finite; the float64 values that are not, and the arithmetic on them, are
    those of the module [Machine]. *)
Inductive Cell :=
| CNull
| CStr (s : pystr)
| CNum (q : Q).

Definition is_null (c : Cell) : bool :=
  match c with CNull => true | _ => false end.

(** One record of [ws.get_all_records()]: a dict from column label to cell,
    in the order of the header row. *)
Definition record := list (pystr * Cell).

(** The parsers and formatters of Python and pandas the script calls.
    Timestamps are nanoseconds since the epoch; [None] is NaT or NaN. *)
Record Library := {
  (** [str(x)] of a number *)
  str_number : Q -> pystr;
  (** [pd.to_datetime(column, errors="coerce", dayfirst=True)]; the format
      is inferred from the column, so the function takes the column *)
  to_datetime : list Cell -> list (option Z);
  (** [pd.to_numeric(x, errors="coerce")] of one string *)
  parse_number : pystr -> option Q;
  (** [t.strftime("%Y-W%U")] *)
  strftime_YWU : Z -> pystr
}.

Inductive Exception :=
| KeyError (label : pystr)
| NotASeries (label : pystr)
| ValueError_NoObjectsToConcatenate
| IndexError.

Inductive result (A : Type) :=
| Ok (a : A)
| Raise (e : Exception).
Arguments Ok {A} a.
Arguments Raise {A} e.

Definition bind {A B} (r : result A) (f : A -> result B) : result B :=
  match r with
  | Ok a => f a
  | Raise e => Raise e
  end.

Notation "x <- r ;; k" := (bind r (fun x => k))
  (at level 61, r at next level, right associativity).

Section Pipeline.

Variable ucd : UnicodeData.
Variable lib : Library.

(** [str(name)] *)
Definition py_str (name : Cell) : pystr :=
  match name with
  | CStr s => s
  | CNum q => str_number lib q
  | CNull => lit "nan"
  end.

(** [clean_feeder_name] *)
Definition clean_feeder_name (name : Cell) : pystr :=
  let name := strip (py_str name) in
  let name := normalize_NFKD ucd name in
  let name := replace_nbsp name in
  let name := collapse name in
  name.

(** *** Loading one worksheet *)

Fixpoint dict_get (k : pystr) (r : record) : Cell :=
  match r with
  | [] => CNull
  | (k', v) :: r' => if pystr_eqb k' k then v else dict_get k r'
  end.

(** The columns of [pd.DataFrame(data)]: the labels of the records, each
    once, in the order of first appearance. *)
Definition add_label (k : pystr) (ls : list pystr) : list pystr :=
  if existsb (pystr_eqb k) ls then ls else ls ++ [k].

Definition columns (data : list record) : list pystr :=
  fold_left (fun ls k => add_label k ls) (flat_map (map fst) data) [].

(** [df[label]] after [df.columns = df.columns.str.strip()]: the column
    whose stripped label is [label].  A label that is absent raises
    [KeyError]; a label carried by several columns selects a DataFrame, on
    which the Series operations of the script fail. *)
Definition column (data : list record) (label : pystr) : result (list Cell) :=
  match filter (fun k => pystr_eqb (strip k) label) (columns data) with
  | [] => Raise (KeyError label)
  | [k] => Ok (map (dict_get k) data)
  | _ => Raise (NotASeries label)
  end.

(** The columns that [dropna(subset=[..., label])] reads for [label]: every
    column whose stripped label is [label], one or several; [KeyError] when
    there is none. *)
Definition subset_columns (data : list record) (label : pystr)
  : result (list (list Cell)) :=
  match filter (fun k => pystr_eqb (strip k) label) (columns data) with
  | [] => Raise (KeyError label)
  | ks => Ok (map (fun k => map (dict_get k) data) ks)
  end.

(** A row of the cleaned table, with the columns the script reads.  The
    script names "Fault Category" in [dropna] only, which accepts a label
    carried by several columns: the field holds the row's cell in each of
    them. *)
Record Row := {
  Feeder_Name : pystr;
  Month : pystr;
  Interruption_Time : option Z;
  Restoration_Time : option Z;
  Duration_hr : option Q;
  Date : option Z;
  Week : option pystr;
  Customer_No : option Q;
  Fault_Category : list Cell
}.

(** [pd.to_numeric(x, errors="coerce")] of one cell *)
Definition to_numeric (c : Cell) : option Q :=
  match c with
  | CNull => None
  | CNum q => Some q
  | CStr s => parse_number lib s
  end.

Definition ns_per_day : Z := 86400000000000.

(** [(restoration - interruption).total_seconds() / 3600] *)
Definition duration_hr (interruption restoration : option Z) : option Q :=
  match interruption, restoration with
  | Some i, Some r =>
      Some (inject_Z (r - i) / inject_Z 1000000000 / inject_Z 3600)
  | _, _ => None
  end.

(** [t.date()], as the number of the day since the epoch *)
Definition date_of (t : Z) : Z := (t / ns_per_day)%Z.

(** The row of index [i] after all the column assignments of the loop body;
    a Series shorter than the table leaves missing values. *)
Definition build_row (month : pystr) (feeder interruption restoration
                      customer : list Cell) (fault : list (list Cell))
           (itime rtime : list (option Z)) (i : nat) : Row :=
  let it := nth i itime None in
  let rt := nth i rtime None in
  {| Feeder_Name := clean_feeder_name (nth i feeder CNull);
     Month := month;
     Interruption_Time := it;
     Restoration_Time := rt;
     Duration_hr := duration_hr it rt;
     Date := option_map date_of it;
     Week := option_map (strftime_YWU lib) it;
     Customer_No := to_numeric (nth i customer CNull);
     Fault_Category := map (fun cells => nth i cells CNull) fault |}.

Definition isSome {A} (o : option A) : bool :=
  match o with Some _ => true | None => false end.

(** The rows [dropna(subset=["Customer No", "Duration (hr)",
    "Fault Category"])] keeps: those with no missing value in any of the
    selected columns. *)
Definition complete (r : Row) : bool :=
  isSome (Customer_No r) && isSome (Duration_hr r)
  && forallb (fun c => negb (is_null c)) (Fault_Category r).

Definition dropna (rows : list Row) : list Row := filter complete rows.

(** The table before [dropna] removes rows.  The first four columns are
    selected as Series, in the order of the script; "Fault Category" is
    looked up last, by [dropna]. *)
Definition typed_rows (month : pystr) (data : list record)
  : result (list Row) :=
  feeder <- column data (lit "Feeder Name") ;;
  interruption <- column data (lit "Interruption Time") ;;
  restoration <- column data (lit "Restoration Time") ;;
  customer <- column data (lit "Customer No") ;;
  fault <- subset_columns data (lit "Fault Category") ;;
  Ok (map (build_row month feeder interruption restoration customer fault
             (to_datetime lib interruption) (to_datetime lib restoration))
          (seq 0 (length data))).

(** The columns the loop body reads from the worksheet. *)
Definition required_columns : list pystr :=
  [lit "Feeder Name"; lit "Interruption Time"; lit "Restoration Time";
   lit "Customer No"; lit "Fault Category"].

(** The body of the loop over the worksheets, for a worksheet with records. *)
Definition ingest (month : pystr) (data : list record) : result (list Row) :=
  rows <- typed_rows month data ;;
  Ok (dropna rows).

(** The loop over [spreadsheet.worksheets()]: a worksheet is its title and
    its records; [all_data] is returned. *)
Fixpoint load (worksheets : list (pystr * list record))
         (all_data : list (list Row)) : result (list (list Row)) :=
  match worksheets with
  | [] => Ok all_data
  | (month, data) :: rest =>
      match data with
      | [] => load rest all_data
      | _ => df <- ingest month data ;; load rest (all_data ++ [df])
      end
  end.

(** The worksheets the loop does not skip. *)
Definition with_records (worksheets : list (pystr * list record))
  : list (pystr * list record) :=
  filter (fun ws => match snd ws with [] => false | _ => true end) worksheets.

(** [pd.concat(all_data, ignore_index=True)] *)
Definition pd_concat (all_data : list (list Row)) : result (list Row) :=
  match all_data with
  | [] => Raise ValueError_NoObjectsToConcatenate
  | _ => Ok (concat all_data)
  end.

Definition df_all (worksheets : list (pystr * list record))
  : result (list Row) :=
  all_data <- load worksheets [] ;;
  pd_concat all_data.

End Pipeline.

(** A row with both timestamps, whose duration, date and week are those of
    the timestamps. *)
Definition dated (lib : Library) (r : Row) : Prop :=
  exists it rt,
    Interruption_Time r = Some it /\ Restoration_Time r = Some rt /\
    Duration_hr r
    = Some (inject_Z (rt - it) / inject_Z 1000000000 / inject_Z 3600) /\
    Date r = Some (date_of it) /\
    Week r = Some (strftime_YWU lib it).

(** ** Sorting *)

Section Sort.

Context {A : Type}.
Variable leb : A -> A -> bool.

Fixpoint insert_sorted (x : A) (l : list A) : list A :=
  match l with
  | [] => [x]
  | y :: l' => if leb x y then x :: l else y :: insert_sorted x l'
  end.

Fixpoint sort (l : list A) : list A :=
  match l with
  | [] => []
  | x :: l' => insert_sorted x (sort l')
  end.

End Sort.

Definition not_Gt (c : comparison) : bool :=
  match c with Gt => false | _ => true end.

Fixpoint pystr_compare (a b : pystr) : comparison :=
  match a, b with
  | [], [] => Eq
  | [], _ :: _ => Lt
  | _ :: _, [] => Gt
  | x :: a', y :: b' =>
      match N.compare x y with
      | Eq => pystr_compare a' b'
      | c => c
      end
  end.

(** ** compute_metrics

    [df.groupby(group_cols).apply(...).reset_index()]: one row per group,
    the groups in ascending order of their keys.  A table without groups
    gives a table without rows. *)

(** The columns the script groups by. *)
Inductive GroupCol :=
| col_Feeder_Name
| col_Month
| col_Date
| col_Week.

(** A value of a grouping column: a string or a [datetime.date]. *)
Inductive KeyVal :=
| KStr (s : pystr)
| KDate (d : Z).

Definition GroupCol_eq_dec (a b : GroupCol) : {a = b} + {a <> b}.
Proof. decide equality. Defined.

Definition KeyVal_eq_dec (a b : KeyVal) : {a = b} + {a <> b}.
Proof.
  decide equality; [apply (list_eq_dec N.eq_dec) | apply Z.eq_dec].
Defined.

Definition key_eq_dec : forall a b : list KeyVal, {a = b} + {a <> b} :=
  list_eq_dec KeyVal_eq_dec.

Definition keyval_compare (a b : KeyVal) : comparison :=
  match a, b with
  | KStr x, KStr y => pystr_compare x y
  | KDate x, KDate y => Z.compare x y
  | KStr _, KDate _ => Lt
  | KDate _, KStr _ => Gt
  end.

Fixpoint key_compare (a b : list KeyVal) : comparison :=
  match a, b with
  | [], [] => Eq
  | [], _ :: _ => Lt
  | _ :: _, [] => Gt
  | x :: a', y :: b' =>
      match keyval_compare x y with
      | Eq => key_compare a' b'
      | c => c
      end
  end.

Definition key_leb (a b : list KeyVal) : bool := not_Gt (key_compare a b).

Definition key_cell (c : GroupCol) (r : Row) : option KeyVal :=
  match c with
  | col_Feeder_Name => Some (KStr (Feeder_Name r))
  | col_Month => Some (KStr (Month r))
  | col_Date => option_map KDate (Date r)
  | col_Week => option_map KStr (Week r)
  end.

(** The group key of a row; [groupby] leaves out a row with a missing value
    in a grouping column. *)
Fixpoint group_key (group_cols : list GroupCol) (r : Row)
  : option (list KeyVal) :=
  match group_cols with
  | [] => Some []
  | c :: cs =>
      match key_cell c r, group_key cs r with
      | Some v, Some vs => Some (v :: vs)
      | _, _ => None
      end
  end.

Definition opt_list {A} (o : option A) : list A :=
  match o with Some a => [a] | None => [] end.

(** The keys of [df.groupby(group_cols)]: distinct, in ascending order. *)
Definition group_keys (df : list Row) (group_cols : list GroupCol)
  : list (list KeyVal) :=
  sort key_leb
    (nodup key_eq_dec (flat_map (fun r => opt_list (group_key group_cols r)) df)).

Definition in_group (group_cols : list GroupCol) (k : list KeyVal) (r : Row)
  : bool :=
  match group_key group_cols r with
  | Some k' => if key_eq_dec k' k then true else false
  | None => false
  end.

(** The rows of one group, in the order of the table. *)
Definition group (df : list Row) (group_cols : list GroupCol)
           (k : list KeyVal) : list Row :=
  filter (in_group group_cols k) df.

(** [Series.sum()] in exact arithmetic: missing values are skipped.  It is
    the sum pandas returns when no int64 addition wraps around and no
    float64 addition rounds; [Machine.series_sum] is the sum as computed. *)
Fixpoint series_sum (s : list (option Q)) : Q :=
  match s with
  | [] => 0
  | Some q :: s' => q + series_sum s'
  | None :: s' => series_sum s'
  end.

Definition opt_mul (a b : option Q) : option Q :=
  match a, b with
  | Some x, Some y => Some (x * y)
  | _, _ => None
  end.

(** [g["Customer No"].sum()] *)
Definition customer_sum (g : list Row) : Q :=
  series_sum (map Customer_No g).

(** [(g["Duration (hr)"] * g["Customer No"]).sum()] *)
Definition weighted_sum (g : list Row) : Q :=
  series_sum (map (fun r => opt_mul (Duration_hr r) (Customer_No r)) g).

(** [x > 0] *)
Definition positive (x : Q) : bool := negb (Qle_bool x 0).

Record MetricsRow := {
  index : list (GroupCol * KeyVal);
  SAIDI : Q;
  SAIFI : Q;
  CAIDI : Q
}.

(** The lambda of [compute_metrics], on the rows [g] of one group. *)
Definition group_metrics (index : list (GroupCol * KeyVal)) (g : list Row)
  : MetricsRow :=
  {| index := index;
     SAIDI := if positive (customer_sum g)
              then weighted_sum g / customer_sum g else 0;
     SAIFI := if positive (customer_sum g)
              then customer_sum g / customer_sum g else 0;
     CAIDI := if positive (customer_sum g)
              then (weighted_sum g / customer_sum g)
                   / (customer_sum g / customer_sum g)
              else 0 |}.

Definition compute_metrics (df : list Row) (group_cols : list GroupCol)
  : list MetricsRow :=
  map (fun k => group_metrics (combine group_cols k) (group df group_cols k))
      (group_keys df group_cols).

(** Two rows with the same values in the grouping columns, the same duration
    and the same customer number; the other columns are free. *)
Definition same_inputs (group_cols : list GroupCol) (r1 r2 : Row) : Prop :=
  (forall c, In c group_cols -> key_cell c r1 = key_cell c r2) /\
  Duration_hr r1 = Duration_hr r2 /\
  Customer_No r1 = Customer_No r2.

(** ** The metrics tables and the filters *)

Definition daily_metrics (df_all : list Row) : list MetricsRow :=
  compute_metrics df_all [col_Feeder_Name; col_Month; col_Date].

Definition weekly_metrics (df_all : list Row) : list MetricsRow :=
  compute_metrics df_all [col_Feeder_Name; col_Month; col_Week].

Definition monthly_metrics (df_all : list Row) : list MetricsRow :=
  compute_metrics df_all [col_Feeder_Name; col_Month].

Inductive Period := Daily | Weekly | Monthly.

Definition metrics_df (period : Period) (df_all : list Row)
  : list MetricsRow :=
  match period with
  | Daily => daily_metrics df_all
  | Weekly => weekly_metrics df_all
  | Monthly => monthly_metrics df_all
  end.

Definition group_field (period : Period) : GroupCol :=
  match period with
  | Daily => col_Date
  | Weekly => col_Week
  | Monthly => col_Month
  end.

(** [row[c]] of a metrics row *)
Fixpoint lookup (c : GroupCol) (ix : list (GroupCol * KeyVal))
  : option KeyVal :=
  match ix with
  | [] => None
  | (c', v) :: ix' => if GroupCol_eq_dec c' c then Some v else lookup c ix'
  end.

Definition field (c : GroupCol) (m : MetricsRow) : option KeyVal :=
  lookup c (index m).

Definition field_is (c : GroupCol) (s : pystr) (m : MetricsRow) : bool :=
  match field c m with
  | Some (KStr s') => pystr_eqb s' s
  | _ => false
  end.

(** [metrics_df[(metrics_df["Month"] == selected_month) &
    (metrics_df["Feeder Name"] == selected_feeder)]] *)
Definition filtered_metrics (metrics_df : list MetricsRow)
           (selected_month selected_feeder : pystr) : list MetricsRow :=
  filter (fun m => field_is col_Month selected_month m
                   && field_is col_Feeder_Name selected_feeder m)
         metrics_df.

(** The order of [sort_values(c)]: ascending, missing values last. *)
Definition field_leb (c : GroupCol) (a b : MetricsRow) : bool :=
  match field c a, field c b with
  | Some x, Some y => not_Gt (keyval_compare x y)
  | _, None => true
  | None, Some _ => false
  end.

Definition sort_values (c : GroupCol) (rows : list MetricsRow)
  : list MetricsRow :=
  sort (field_leb c) rows.

(** [rows.iloc[-1]] *)
Fixpoint iloc_last {A} (rows : list A) : result A :=
  match rows with
  | [] => Raise IndexError
  | [x] => Ok x
  | _ :: rows' => iloc_last rows'
  end.

(** What the page shows: the three indices of [latest] (rounded to three
    decimals by the widgets) or the warning, and the charts of the filtered
    rows or the information message. *)
Inductive MetricsPanel :=
| Metric (latest : MetricsRow)
| Warning_NoMetrics.

Inductive TrendPanel :=
| Charts (rows : list MetricsRow) (x : GroupCol)
| Info_NoTrend.

Definition metrics_display (period : Period) (filtered : list MetricsRow)
  : result MetricsPanel :=
  match filtered with
  | [] => Ok Warning_NoMetrics
  | _ => latest <- iloc_last (sort_values (group_field period) filtered) ;;
         Ok (Metric latest)
  end.

Definition plots (period : Period) (filtered : list MetricsRow) : TrendPanel :=
  match filtered with
  | [] => Info_NoTrend
  | _ => Charts filtered (group_field period)
  end.

(** The script from the metrics tables on, for the choices of the sidebar. *)
Definition page (df_all : list Row) (period : Period)
           (selected_month selected_feeder : pystr)
  : result (MetricsPanel * TrendPanel) :=
  let filtered :=
    filtered_metrics (metrics_df period df_all) selected_month selected_feeder in
  panel <- metrics_display period filtered ;;
  Ok (panel, plots period filtered).

(** The grouping columns of the metrics table of a period. *)
Definition period_cols (period : Period) : list GroupCol :=
  match period with
  | Daily => [col_Feeder_Name; col_Month; col_Date]
  | Weekly => [col_Feeder_Name; col_Month; col_Week]
  | Monthly => [col_Feeder_Name; col_Month]
  end.

(** ** The options of the sidebar *)

Definition pystr_leb (a b : pystr) : bool := not_Gt (pystr_compare a b).

(** [Series.unique()]: the distinct values in the order of first
    appearance. *)
Definition unique (values : list pystr) : list pystr :=
  fold_left (fun ls k => add_label k ls) values [].

(** [sorted(df_all["Month"].unique())] *)
Definition month_options (df_all : list Row) : list pystr :=
  sort pystr_leb (unique (map Month df_all)).

(** [sorted(df_all[df_all["Month"] == selected_month]["Feeder Name"]
    .unique())] *)
Definition feeder_options (df_all : list Row) (selected_month : pystr)
  : list pystr :=
  sort pystr_leb
       (unique (map Feeder_Name
                    (filter (fun r => pystr_eqb (Month r) selected_month)
                            df_all))).

(** ** The metrics in int64 and float64

    [compute_metrics] once more, on the numbers pandas holds.  "Duration
    (hr)" is a float64 column; "Customer No" is the column [pd.to_numeric]
    made: int64 when every value is an integer of the int64 range, float64
    when one of them is a float.  The table is columnar, as a DataFrame is:
    [rows] gives the grouping columns, [Duration] and [Customer] the two
    numeric columns as they are stored, row by row. *)

Module Machine.

(** A numeric column. *)
Inductive Series :=
| Int64 (values : list Z)
| Float64 (values : list float).

(** A number the lambda handles: [np.int64] (and the [int] 0 of its [else]
    branches) or [np.float64]. *)
Inductive Scalar :=
| I64 (z : Z)
| F64 (f : float).

(** The float64 summation behind [Series.sum()]: the order in which the
    numbers are added (pairwise, in blocks) is the library's own, so the sum
    is a parameter. *)
Record Numpy := {
  np_sum : list float -> float
}.

Record Frame := {
  (** the rows of the table, read for their grouping columns *)
  rows : list Row;
  (** the column "Duration (hr)" *)
  Duration : list float;
  (** the column "Customer No" *)
  Customer : Series
}.

(** int64 arithmetic wraps around. *)
Definition wrap64 (z : Z) : Z := ((z + 2 ^ 63) mod 2 ^ 64 - 2 ^ 63)%Z.

(** The float64 nearest to an int64, ties to even. *)
Definition float_of_int64 (z : Z) : float :=
  if (z <? 0)%Z then
    if (z =? - 2 ^ 63)%Z then (-0x1p63)%float
    else (- of_uint63 (Uint63.of_Z (- z)))%float
  else of_uint63 (Uint63.of_Z z).

Definition to_float (x : Scalar) : float :=
  match x with
  | I64 z => float_of_int64 z
  | F64 f => f
  end.

(** [a / b]: true division, always in float64. *)
Definition truediv (a b : Scalar) : Scalar := F64 (to_float a / to_float b).

(** [x > 0] *)
Definition gt0 (x : Scalar) : bool :=
  match x with
  | I64 z => (0 <? z)%Z
  | F64 f => (0 <? f)%float
  end.

(** [x == 0] *)
Definition is_zero (x : Scalar) : bool :=
  match x with
  | I64 z => (z =? 0)%Z
  | F64 f => (f =? 0)%float
  end.

Definition nan_to_zero (x : float) : float := if is_nan x then 0%float else x.

(** The values of a column in float64. *)
Definition as_float64 (s : Series) : list float :=
  match s with
  | Int64 values => map float_of_int64 values
  | Float64 values => values
  end.

Section Sums.

Variable np : Numpy.

(** [Series.sum()], [skipna=True]: an int64 column is added in int64; in a
    float64 column NaN counts as 0. *)
Definition series_sum (s : Series) : Scalar :=
  match s with
  | Int64 values => I64 (wrap64 (fold_right Z.add 0%Z values))
  | Float64 values => F64 (np_sum np (map nan_to_zero values))
  end.

(** [g["Duration (hr)"] * g["Customer No"]]: a float64 column; an int64
    operand is converted first. *)
Definition series_mul (d : list float) (c : Series) : Series :=
  Float64 (map (fun x => (fst x * snd x)%float) (combine d (as_float64 c))).

(** [g["Customer No"].sum()] *)
Definition customer_sum (g : Frame) : Scalar := series_sum (Customer g).

(** [(g["Duration (hr)"] * g["Customer No"]).sum()] *)
Definition weighted_sum (g : Frame) : Scalar :=
  series_sum (series_mul (Duration g) (Customer g)).

Record MetricsRow := {
  index : list (GroupCol * KeyVal);
  SAIDI : Scalar;
  SAIFI : Scalar;
  CAIDI : Scalar
}.

(** The lambda of [compute_metrics], on the sub-table [g] of one group. *)
Definition group_metrics (index : list (GroupCol * KeyVal)) (g : Frame)
  : MetricsRow :=
  {| index := index;
     SAIDI := if gt0 (customer_sum g)
              then truediv (weighted_sum g) (customer_sum g) else I64 0;
     SAIFI := if gt0 (customer_sum g)
              then truediv (customer_sum g) (customer_sum g) else I64 0;
     CAIDI := if gt0 (customer_sum g)
              then truediv (truediv (weighted_sum g) (customer_sum g))
                           (truediv (customer_sum g) (customer_sum g))
              else I64 0 |}.

(** The entries of a column at the rows a mask selects. *)
Fixpoint select {A : Type} (mask : list bool) (l : list A) : list A :=
  match mask, l with
  | b :: mask', x :: l' =>
      if b then x :: select mask' l' else select mask' l'
  | _, _ => []
  end.

Definition select_series (mask : list bool) (s : Series) : Series :=
  match s with
  | Int64 values => Int64 (select mask values)
  | Float64 values => Float64 (select mask values)
  end.

Definition take (mask : list bool) (df : Frame) : Frame :=
  {| rows := select mask (rows df);
     Duration := select mask (Duration df);
     Customer := select_series mask (Customer df) |}.

(** [df.groupby(group_cols)]: the keys in ascending order, each with the
    sub-table of its rows. *)
Definition groupby (df : Frame) (group_cols : list GroupCol)
  : list (list KeyVal * Frame) :=
  map (fun k => (k, take (map (in_group group_cols k) (rows df)) df))
      (group_keys (rows df) group_cols).

Definition compute_metrics (df : Frame) (group_cols : list GroupCol)
  : list MetricsRow :=
  map (fun kg => group_metrics (combine group_cols (fst kg)) (snd kg))
      (groupby df group_cols).

End Sums.

(** [x < 0] *)
Definition lt0 (x : Scalar) : bool :=
  match x with
  | I64 z => (z <? 0)%Z
  | F64 f => (f <? 0)%float
  end.








End Machine.

(** ** An instance for the examples

    An excerpt of the Unicode Character Database, and a library that reads
    timestamps written [DD/MM/YYYY HH:MM] and unsigned decimal integers. *)

Module Demo.

Definition ucd : UnicodeData :=
  {| compat_decomposition := fun c =>
       if (c =? 0xA0)%N then [0x20%N]                                (* NBSP *)
       else if (c =? 0xB2)%N then [0x32%N]                  (* superscript 2 *)
       else if (c =? 0xC9)%N then [0x45%N; 0x301%N]               (* E acute *)
       else if (c =? 0xE9)%N then [0x65%N; 0x301%N]               (* e acute *)
       else if (c =? 0x2002)%N then [0x20%N]                     (* en space *)
       else [c];
     canon_decomposition := fun c =>
       if (c =? 0xC9)%N then [0x45%N; 0x301%N]
       else if (c =? 0xE9)%N then [0x65%N; 0x301%N]
       else [c];
     combining := fun c =>
       if (c =? 0x301)%N then 230%N                               (* acute *)
       else if (c =? 0x323)%N then 220%N                       (* dot below *)
       else if (c =? 0x327)%N then 202%N                         (* cedilla *)
       else 0%N;
     composite := fun a b =>
       if ((a =? 0x45) && (b =? 0x301))%N then Some 0xC9%N
       else if ((a =? 0x65) && (b =? 0x301))%N then Some 0xE9%N
       else None |}.

Definition digit (c : codepoint) : option Z :=
  if ((0x30 <=? c) && (c <=? 0x39))%N then Some (Z.of_N c - 0x30)%Z else None.

(** The value of a string of decimal digits. *)
Fixpoint decimal (acc : Z) (s : pystr) : option Z :=
  match s with
  | [] => Some acc
  | c :: s' =>
      match digit c with
      | Some d => decimal (10 * acc + d)%Z s'
      | None => None
      end
  end.

Definition number (s : pystr) : option Z :=
  match s with
  | [] => None
  | _ => decimal 0 s
  end.

(** Days since 1970-01-01 of a date of the Gregorian calendar. *)
Definition days_from_civil (y m d : Z) : Z :=
  (let y' := if m <=? 2 then y - 1 else y in
   let era := y' / 400 in
   let yoe := y' - era * 400 in
   let mp := if 2 <? m then m - 3 else m + 9 in
   let doy := (153 * mp + 2) / 5 + d - 1 in
   let doe := yoe * 365 + yoe / 4 - yoe / 100 + doy in
   era * 146097 + doe - 719468)%Z.

(** The year of a day since 1970-01-01. *)
Definition year_of_days (z : Z) : Z :=
  (let z := z + 719468 in
   let era := z / 146097 in
   let doe := z - era * 146097 in
   let yoe := (doe - doe / 1460 + doe / 36524 - doe / 146096) / 365 in
   let doy := doe - (365 * yoe + yoe / 4 - yoe / 100) in
   let mp := (5 * doy + 2) / 153 in
   let m := if mp <? 10 then mp + 3 else mp - 9 in
   if m <=? 2 then yoe + era * 400 + 1 else yoe + era * 400)%Z.

Definition timestamp (s : pystr) : option Z :=
  match s with
  | [d1; d2; sl1; m1; m2; sl2; y1; y2; y3; y4; sp; h1; h2; co; n1; n2] =>
      if ((sl1 =? 0x2F) && (sl2 =? 0x2F) && (sp =? 0x20) && (co =? 0x3A))%N
      then
        match number [d1; d2], number [m1; m2], number [y1; y2; y3; y4],
              number [h1; h2], number [n1; n2] with
        | Some d, Some m, Some y, Some h, Some n =>
            Some ((days_from_civil y m d * 86400 + h * 3600 + n * 60)
                  * 1000000000)%Z
        | _, _, _, _, _ => None
        end
      else None
  | _ => None
  end.

Definition digits (n : Z) : pystr :=
  lit (NilZero.string_of_uint (N.to_uint (Z.to_N n))).

Definition two_digits (n : Z) : pystr :=
  if (n <? 10)%Z then 0x30%N :: digits n else digits n.

(** Year, [-W], and the number of the week of the year, weeks beginning on
    Sunday and the days before the first Sunday in week 00. *)
Definition week_label (t : Z) : pystr :=
  (let day := t / ns_per_day in
   let year := year_of_days day in
   let yday := day - days_from_civil year 1 1 in
   let wday := (day + 4) mod 7 in
   digits year ++ lit "-W" ++ two_digits ((yday + 7 - wday) / 7))%Z%list.

Definition lib : Library :=
  {| str_number := fun q => digits (Qnum q / Zpos (Qden q));
     to_datetime := map (fun c => match c with
                                  | CStr s => timestamp s
                                  | _ => None
                                  end);
     parse_number := fun s => option_map inject_Z (number s);
     strftime_YWU := week_label |}.

Definition sheet_header : list pystr :=
  [lit "Feeder Name"; lit " Interruption Time"; lit "Restoration Time";
   lit "Customer No "; lit "Fault Category"].

Definition rec (feeder interruption restoration : string) (customers : Cell)
           (fault : Cell) : record :=
  combine sheet_header
          [CStr (lit feeder); CStr (lit interruption); CStr (lit restoration);
           customers; fault].

(** The worksheet of the end-to-end example. *)
Definition january : pystr * list record :=
  (lit "Jan",
   [rec "Feeder A " "01/01/2024 00:00" "01/01/2024 02:00" (CNum 100)
        (CStr (lit "Line fault"));
    rec "Feeder A" "02/01/2024 00:00" "02/01/2024 01:00" (CNum 50)
        (CStr (lit "Tree contact"))]).

(** A worksheet whose only row has no customer number. *)
Definition february : pystr * list record :=
  (lit "Feb",
   [rec "Feeder B" "03/02/2024 10:00" "03/02/2024 11:30" (CStr (lit "n/a"))
        (CStr (lit "Line fault"))]).

(** A worksheet with a negative customer number, total -15. *)
Definition march : pystr * list record :=
  (lit "Mar",
   [rec "Feeder C" "05/03/2024 08:00" "05/03/2024 09:00" (CNum (-20))
        (CStr (lit "Correction"));
    rec "Feeder C" "06/03/2024 08:00" "06/03/2024 10:00" (CNum 5)
        (CStr (lit "Line fault"))]).

Definition worksheets : list (pystr * list record) :=
  [january; february; march].

(** The unified table of the three worksheets. *)
Definition table : list Row :=
  Eval vm_compute in
    match df_all ucd lib worksheets with
    | Ok df => df
    | Raise _ => []
    end.

(** The same row with other times and another fault category. *)
Definition recoded (r : Row) : Row :=
  {| Feeder_Name := Feeder_Name r;
     Month := Month r;
     Interruption_Time := None;
     Restoration_Time := option_map Z.succ (Restoration_Time r);
     Duration_hr := Duration_hr r;
     Date := Date r;
     Week := Week r;
     Customer_No := Customer_No r;
     Fault_Category := [CStr (lit "Unknown")] |}.

(** The cleaned tables of the worksheets that have records. *)
Definition frames : list (list Row) :=
  Eval vm_compute in
    map (fun ws => match ingest ucd lib (fst ws) (snd ws) with
                   | Ok f => f
                   | Raise _ => []
                   end) (with_records worksheets).

Definition monthly : list GroupCol := [col_Feeder_Name; col_Month].

(** The cleaned table of the worksheet "Jan". *)
Definition january_rows : list Row :=
  Eval vm_compute in
    match ingest ucd lib (fst january) (snd january) with
    | Ok f => f
    | Raise _ => []
    end.

(** The first row of the unified table. *)
Definition first_row : Row :=
  Eval vm_compute in
    hd {| Feeder_Name := []; Month := []; Interruption_Time := None;
          Restoration_Time := None; Duration_hr := None; Date := None;
          Week := None; Customer_No := None; Fault_Category := [] |}
       table.

(** A worksheet that has the feeder names only. *)
Definition april : pystr * list record :=
  (lit "Apr", [[(lit "Feeder Name", CStr (lit "Feeder D"))]]).

(** A worksheet whose only row is restored an hour before it is
    interrupted. *)
Definition may : pystr * list record :=
  (lit "May",
   [rec "Feeder E" "10/05/2024 12:00" "10/05/2024 11:00" (CNum 30)
        (CStr (lit "Entry error"))]).

(** The row of the worksheet "May". *)
Definition may_row : Row :=
  {| Feeder_Name := lit "Feeder E";
     Month := lit "May";
     Interruption_Time := Some 1715342400000000000%Z;
     Restoration_Time := Some 1715338800000000000%Z;
     Duration_hr := Some (inject_Z (-3600000000000)
                          / inject_Z 1000000000 / inject_Z 3600);
     Date := Some 19853%Z;
     Week := Some (lit "2024-W18");
     Customer_No := Some 30;
     Fault_Category := [CStr (lit "Entry error")] |}.

(** A worksheet in which two labels strip to "Fault Category"; the second
    row has no value in the second of these columns. *)
Definition june : pystr * list record :=
  (lit "Jun",
   [rec "Feeder F" "01/06/2024 00:00" "01/06/2024 03:00" (CNum 10)
        (CStr (lit "Line fault")) ++ [(lit "Fault Category ", CStr (lit "LF"))];
    rec "Feeder F" "02/06/2024 00:00" "02/06/2024 01:00" (CNum 20)
        (CStr (lit "Line fault")) ++ [(lit "Fault Category ", CNull)]]).

(** numpy adding from left to right, as it does for fewer than eight
    numbers. *)
Definition numpy : Machine.Numpy :=
  {| Machine.np_sum := fun l => fold_left PrimFloat.add l 0%float |}.

(** The unified table with its numbers as pandas holds them: durations in
    float64, customer numbers in int64. *)
Definition counts : Machine.Frame :=
  {| Machine.rows := table;
     Machine.Duration := [2; 1; 1; 2]%float;
     Machine.Customer := Machine.Int64 [100; 50; -20; 5]%Z |}.

(** The rows of "Jan" with another customer number. *)
Definition with_customer (c : Q) (r : Row) : Row :=
  {| Feeder_Name := Feeder_Name r;
     Month := Month r;
     Interruption_Time := Interruption_Time r;
     Restoration_Time := Restoration_Time r;
     Duration_hr := Duration_hr r;
     Date := Date r;
     Week := Week r;
     Customer_No := Some c;
     Fault_Category := Fault_Category r |}.

(** The table of "Jan" with float64 customer numbers 2^1023, whose sum
    exceeds the largest float64. *)
Definition huge : Machine.Frame :=
  {| Machine.rows := map (with_customer (inject_Z (2 ^ 1023))) january_rows;
     Machine.Duration := [2; 1]%float;
     Machine.Customer := Machine.Float64 [0x1p1023; 0x1p1023]%float |}.



Definition index_A_Jan : list (GroupCol * KeyVal) :=
  [(col_Feeder_Name, KStr (lit "Feeder A")); (col_Month, KStr (lit "Jan"))].

Definition index_C_Mar : list (GroupCol * KeyVal) :=
  [(col_Feeder_Name, KStr (lit "Feeder C")); (col_Month, KStr (lit "Mar"))].

(** The monthly metrics of "Feeder A" in "Jan": 250 customer hours, 150
    customers. *)
Definition metrics_A_Jan : Machine.MetricsRow :=
  {| Machine.index := index_A_Jan;
     Machine.SAIDI := Machine.F64 (250 / 150);
     Machine.SAIFI := Machine.F64 1;
     Machine.CAIDI := Machine.F64 (250 / 150) |}.

(** The row of a group whose customer total is not above 0. *)
Definition zeros (index : list (GroupCol * KeyVal)) : Machine.MetricsRow :=
  {| Machine.index := index;
     Machine.SAIDI := Machine.I64 0;
     Machine.SAIFI := Machine.I64 0;
     Machine.CAIDI := Machine.I64 0 |}.

(** A key of two lines. *)
Definition key_text : pystr :=
  lit "KEY" ++ [LINE_FEED] ++ lit "abc" ++ [LINE_FEED].

Definition key_A_Jan : list KeyVal := [KStr (lit "Feeder A"); KStr (lit "Jan")].
Definition key_C_Mar : list KeyVal := [KStr (lit "Feeder C"); KStr (lit "Mar")].

(** The group of "Feeder C" in "Mar": customer numbers -20 and 5. *)
Definition march_group : Machine.Frame :=
  Eval vm_compute in
    Machine.take (map (in_group monthly key_C_Mar) (Machine.rows counts))
                 counts.

End Demo.


(** * Properties *)

(** ** Whitespace handling *)

Lemma isspace_SPACE : isspace SPACE = true.
Proof. reflexivity. Qed.

Lemma isspace_NBSP : isspace NBSP = true.
Proof. reflexivity. Qed.

Lemma starts_token_split (s : pystr) :
  starts_token s = true -> split s <> [].
Proof.
  destruct s as [|c s']; simpl; [discriminate|].
  intros H. apply negb_true_iff in H. rewrite H.
  destruct (split s') as [|t ts]; [discriminate|].
  destruct (starts_token s'); discriminate.
Qed.

(** [collapse] by recursion on the string. *)
Lemma collapse_cons (c : codepoint) (s : pystr) :
  collapse (c :: s) =
  if isspace c then collapse s
  else if starts_token s then c :: collapse s
       else match split s with
            | [] => [c]
            | _ => c :: SPACE :: collapse s
            end.
Proof.
  unfold collapse. simpl. destruct (isspace c); [reflexivity|].
  destruct (starts_token s) eqn:Hs.
  - destruct (split s) as [|t ts] eqn:Hsp.
    + exfalso. now apply (starts_token_split s).
    + destruct ts; reflexivity.
  - destruct (split s) as [|t ts]; reflexivity.
Qed.

Lemma collapse_space (c : codepoint) (s : pystr) :
  isspace c = true -> collapse (c :: s) = collapse s.
Proof. intros H. rewrite collapse_cons, H. reflexivity. Qed.

Lemma collapse_starts (s : pystr) :
  split s <> [] -> starts_token (collapse s) = true.
Proof.
  induction s as [|c s IH]; intros H; [now elim H|].
  rewrite collapse_cons. simpl in H.
  destruct (isspace c) eqn:Hc; [now apply IH|].
  destruct (starts_token s); [simpl; now rewrite Hc|].
  destruct (split s); simpl; now rewrite Hc.
Qed.

Lemma collapse_idempotent (s : pystr) : collapse (collapse s) = collapse s.
Proof.
  induction s as [|c s IH]; [reflexivity|].
  rewrite collapse_cons.
  destruct (isspace c) eqn:Hc; [exact IH|].
  destruct (starts_token s) eqn:Hs.
  - rewrite collapse_cons, Hc, collapse_starts, IH; [reflexivity|].
    now apply starts_token_split.
  - destruct (split s) as [|t ts] eqn:Hsp.
    + rewrite collapse_cons, Hc. reflexivity.
    + assert (Hne : split s <> []) by (rewrite Hsp; discriminate).
      rewrite collapse_cons, Hc.
      change (starts_token (SPACE :: collapse s)) with false.
      change (split (SPACE :: collapse s)) with (split (collapse s)).
      pose proof (starts_token_split _ (collapse_starts _ Hne)) as Hne'.
      destruct (split (collapse s)) eqn:E; [now elim Hne'|].
      rewrite (collapse_space SPACE _ isspace_SPACE), IH. reflexivity.
Qed.

Lemma lstrip_starts (s : pystr) : starts_token s = true -> lstrip s = s.
Proof.
  destruct s as [|c s]; simpl; [reflexivity|].
  intros H. apply negb_true_iff in H. now rewrite H.
Qed.

Lemma collapse_nil (s : pystr) : split s = [] -> collapse s = [].
Proof. unfold collapse. now intros ->. Qed.

Lemma lstrip_collapse (s : pystr) : lstrip (collapse s) = collapse s.
Proof.
  destruct (split s) eqn:E.
  - now rewrite collapse_nil.
  - apply lstrip_starts, collapse_starts. rewrite E. discriminate.
Qed.

Lemma collapse_nonempty (s : pystr) : split s <> [] -> collapse s <> [].
Proof.
  intros H E. apply collapse_starts in H. rewrite E in H. discriminate.
Qed.

Lemma collapse_last (s : pystr) :
  collapse s = [] \/
  exists u e, collapse s = u ++ [e] /\ isspace e = false.
Proof.
  induction s as [|c s IH]; [now left|].
  rewrite collapse_cons.
  destruct (isspace c) eqn:Hc; [exact IH|]. right.
  destruct (starts_token s) eqn:Hs.
  - destruct IH as [E | (u & e & E & He)].
    + apply starts_token_split, collapse_nonempty in Hs. now elim Hs.
    + exists (c :: u), e. now rewrite E.
  - destruct (split s) as [|t ts] eqn:Hsp.
    + now exists [], c.
    + destruct IH as [E | (u & e & E & He)].
      * exfalso. apply (collapse_nonempty s); [rewrite Hsp; discriminate|exact E].
      * exists (c :: SPACE :: u), e. now rewrite E.
Qed.

Lemma rstrip_collapse (s : pystr) : rstrip (collapse s) = collapse s.
Proof.
  unfold rstrip. destruct (collapse_last s) as [E | (u & e & E & He)].
  - now rewrite E.
  - rewrite E, rev_app_distr. simpl. rewrite He. simpl.
    now rewrite rev_involutive.
Qed.

Lemma strip_collapse (s : pystr) : strip (collapse s) = collapse s.
Proof. unfold strip. now rewrite lstrip_collapse, rstrip_collapse. Qed.

Lemma replace_nbsp_isspace (c : codepoint) :
  isspace (if (c =? NBSP)%N then SPACE else c) = isspace c.
Proof.
  destruct (N.eqb_spec c NBSP) as [->|]; reflexivity.
Qed.

Lemma replace_nbsp_token (c : codepoint) :
  isspace c = false -> (if (c =? NBSP)%N then SPACE else c) = c.
Proof.
  destruct (N.eqb_spec c NBSP) as [->|]; [discriminate|reflexivity].
Qed.

Lemma starts_token_replace_nbsp (s : pystr) :
  starts_token (replace_nbsp s) = starts_token s.
Proof.
  destruct s as [|c s]; simpl; [reflexivity|].
  now rewrite replace_nbsp_isspace.
Qed.

(** The replacement of the non-breaking space changes no token: a
    non-breaking space is whitespace for [split] already. *)
Lemma split_replace_nbsp (s : pystr) : split (replace_nbsp s) = split s.
Proof.
  induction s as [|c s IH]; [reflexivity|].
  change (replace_nbsp (c :: s))
    with ((if (c =? NBSP)%N then SPACE else c) :: replace_nbsp s).
  simpl. rewrite replace_nbsp_isspace, IH, starts_token_replace_nbsp.
  destruct (isspace c) eqn:Hc; [reflexivity|].
  now rewrite (replace_nbsp_token c Hc).
Qed.

Lemma collapse_replace_nbsp (s : pystr) :
  collapse (replace_nbsp s) = collapse s.
Proof. unfold collapse. now rewrite split_replace_nbsp. Qed.

Lemma in_collapse (c : codepoint) (s : pystr) :
  In c (collapse s) -> c = SPACE \/ In c s.
Proof.
  induction s as [|d s IH]; [intros []|].
  rewrite collapse_cons.
  destruct (isspace d); [intros H; destruct (IH H); auto using in_cons|].
  destruct (starts_token s).
  - intros [->|H]; [right; now left|]. destruct (IH H); auto using in_cons.
  - destruct (split s).
    + intros [->|[]]. right; now left.
    + intros [->|[<-|H]]; [right; now left|now left|].
      destruct (IH H); auto using in_cons.
Qed.

(** ** Canonical ordering and NFKD *)

Section NormalizationFacts.

Variable ucd : UnicodeData.

Local Notation "'ordered'" := (canonically_ordered ucd).
Local Notation "'R'" := (fun c p => inversion ucd c p = false).

Lemma inversion_starter_l (a q : codepoint) :
  combining ucd a = 0%N -> inversion ucd a q = false.
Proof.
  intros H. unfold inversion. rewrite H.
  destruct (0 <? combining ucd q)%N; [|reflexivity].
  simpl. apply N.ltb_ge, N.le_0_l.
Qed.

Lemma inversion_starter_r (a q : codepoint) :
  combining ucd q = 0%N -> inversion ucd a q = false.
Proof. intros H. unfold inversion. now rewrite H. Qed.

Lemma HdRel_starter (a : codepoint) (l : pystr) :
  combining ucd a = 0%N -> HdRel R a l.
Proof.
  intros H. destruct l; constructor. now apply inversion_starter_l.
Qed.

Lemma inversion_flip (c p : codepoint) :
  inversion ucd c p = true -> inversion ucd p c = false.
Proof.
  unfold inversion. intros H. apply andb_true_iff in H as [_ H].
  apply N.ltb_lt in H. apply andb_false_iff. right. apply N.ltb_ge. lia.
Qed.

Lemma reorder_insert_HdRel (d c : codepoint) (l : pystr) :
  HdRel R d l -> inversion ucd d c = false ->
  HdRel R d (reorder_insert ucd c l).
Proof.
  intros Hl Hc. destruct l as [|p l]; simpl; [now constructor|].
  destruct (inversion ucd c p); constructor; [|exact Hc].
  now inversion Hl.
Qed.

Lemma reorder_insert_ordered (c : codepoint) (l : pystr) :
  ordered l -> ordered (reorder_insert ucd c l).
Proof.
  unfold canonically_ordered.
  induction l as [|p l IH]; intros Hl; simpl.
  - repeat constructor.
  - inversion Hl as [|? ? Hs Hh]; subst.
    destruct (inversion ucd c p) eqn:E.
    + constructor; [now apply IH|].
      apply reorder_insert_HdRel; [exact Hh|now apply inversion_flip].
    + constructor; [exact Hl|]. now constructor.
Qed.

Lemma canonical_order_ordered (s : pystr) : ordered (canonical_order ucd s).
Proof.
  induction s; simpl; [constructor|now apply reorder_insert_ordered].
Qed.

Lemma canonical_order_fixed (s : pystr) :
  ordered s -> canonical_order ucd s = s.
Proof.
  unfold canonically_ordered.
  induction s as [|c s IH]; intros Hs; [reflexivity|].
  inversion Hs as [|? ? Hs' Hh]; subst. simpl. rewrite (IH Hs').
  destruct s as [|p s]; [reflexivity|]. simpl.
  inversion Hh as [|? ? E]; subst. now rewrite E.
Qed.

Lemma reorder_insert_In (x c : codepoint) (l : pystr) :
  In x (reorder_insert ucd c l) -> x = c \/ In x l.
Proof.
  induction l as [|p l IH]; simpl.
  - intros [->|[]]; now left.
  - destruct (inversion ucd c p).
    + intros [->|H]; [right; now left|].
      destruct (IH H); [now left|right; now right].
    + intros [->|H]; [now left|now right].
Qed.

Lemma canonical_order_In (x : codepoint) (s : pystr) :
  In x (canonical_order ucd s) -> In x s.
Proof.
  induction s as [|c s IH]; simpl; [tauto|].
  intros H. apply reorder_insert_In in H as [->|H]; [now left|].
  right. now apply IH.
Qed.

Lemma normalize_NFKD_ordered (s : pystr) : ordered (normalize_NFKD ucd s).
Proof. apply canonical_order_ordered. Qed.

Lemma normalize_NFKD_chars (s : pystr) (c : codepoint) :
  fully_decomposed ucd -> In c (normalize_NFKD ucd s) ->
  compat_decomposition ucd c = [c].
Proof.
  intros Hfd H. apply canonical_order_In, in_flat_map in H as (x & _ & H).
  exact (Hfd x c H).
Qed.

(** A string of fully decomposed characters in canonical order is in NFKD. *)
Lemma normalize_NFKD_fixed (s : pystr) :
  (forall c, In c s -> compat_decomposition ucd c = [c]) ->
  ordered s -> normalize_NFKD ucd s = s.
Proof.
  intros Hc Hs. unfold normalize_NFKD.
  assert (E : flat_map (compat_decomposition ucd) s = s).
  { clear Hs. induction s as [|c s IH]; [reflexivity|].
    simpl. rewrite (Hc c (or_introl eq_refl)). simpl. f_equal.
    apply IH. intros d Hd. apply Hc. now right. }
  rewrite E. now apply canonical_order_fixed.
Qed.

Lemma collapse_head (s : pystr) :
  starts_token s = true ->
  exists d r r', s = d :: r /\ collapse s = d :: r'.
Proof.
  destruct s as [|d r]; [discriminate|]. simpl. intros H.
  apply negb_true_iff in H. rewrite collapse_cons, H.
  destruct (starts_token r); [now eauto|].
  destruct (split r); now eauto.
Qed.

Lemma collapse_ordered (s : pystr) :
  combining ucd SPACE = 0%N -> ordered s -> ordered (collapse s).
Proof.
  intros Hsp. unfold canonically_ordered.
  induction s as [|c s IH]; intros Hs; [constructor|].
  inversion Hs as [|? ? Hs' Hh]; subst. rewrite collapse_cons.
  destruct (isspace c); [now apply IH|].
  destruct (starts_token s) eqn:Hst.
  - constructor; [now apply IH|].
    destruct (collapse_head s Hst) as (d & r & r' & -> & ->).
    inversion Hh; subst. now constructor.
  - destruct (split s).
    + repeat constructor.
    + constructor.
      * constructor; [now apply IH|now apply HdRel_starter].
      * constructor. now apply inversion_starter_r.
Qed.

End NormalizationFacts.

(** ** The name normalizer *)

(** C8. The name normalizer is idempotent: cleaning a cleaned name gives the
    same name again.  The Unicode Character Database is any table whose
    decompositions are full and in which U+0020 has no decomposition and
    combining class 0. *)
Theorem clean_feeder_name_idempotent (ucd : UnicodeData) (lib : Library)
        (x : pystr) :
  fully_decomposed ucd -> space_is_inert ucd ->
  clean_feeder_name ucd lib (CStr (clean_feeder_name ucd lib (CStr x)))
  = clean_feeder_name ucd lib (CStr x).
Proof.
  intros Hfd [Hkd Hccc]. unfold clean_feeder_name. simpl py_str.
  rewrite !collapse_replace_nbsp.
  set (z := normalize_NFKD ucd (strip x)).
  rewrite strip_collapse, normalize_NFKD_fixed, collapse_idempotent.
  - reflexivity.
  - intros c Hc. apply in_collapse in Hc as [->|Hc]; [exact Hkd|].
    now apply (normalize_NFKD_chars ucd (strip x)).
  - apply collapse_ordered; [exact Hccc|apply normalize_NFKD_ordered].
Qed.

(** *** Whitespace variants *)

Lemma starts_token_app (a b : pystr) (w : codepoint) :
  isspace w = true ->
  starts_token (a ++ w :: b) = starts_token a.
Proof.
  intros H. destruct a; simpl; [now rewrite H|reflexivity].
Qed.

Lemma split_ws_swap (a b : pystr) (w1 w2 : codepoint) :
  isspace w1 = true -> isspace w2 = true ->
  split (a ++ w1 :: b) = split (a ++ w2 :: b).
Proof.
  intros H1 H2. induction a as [|c a IH]; simpl.
  - now rewrite H1, H2.
  - now rewrite IH, (starts_token_app a b w1 H1), (starts_token_app a b w2 H2).
Qed.

Lemma split_ws_run (a b : pystr) (w1 w2 : codepoint) :
  isspace w1 = true -> isspace w2 = true ->
  split (a ++ w1 :: w2 :: b) = split (a ++ w1 :: b).
Proof.
  intros H1 H2. induction a as [|c a IH]; simpl.
  - now rewrite H1, H2.
  - now rewrite IH, (starts_token_app a (w2 :: b) w1 H1),
      (starts_token_app a b w1 H1).
Qed.

Lemma split_ws_trailing (a : pystr) (w : codepoint) :
  isspace w = true -> split (a ++ [w]) = split a.
Proof.
  intros H. induction a as [|c a IH]; simpl.
  - now rewrite H.
  - rewrite IH, (starts_token_app a [] w H). destruct a; reflexivity.
Qed.

Lemma split_cons (c : codepoint) (s : pystr) :
  split (c :: s) =
  if isspace c then split s
  else match split s with
       | t :: ts => if starts_token s then (c :: t) :: ts else [c] :: t :: ts
       | [] => [[c]]
       end.
Proof. reflexivity. Qed.

Lemma split_collapse (s : pystr) : split (collapse s) = split s.
Proof.
  induction s as [|c s IH]; [reflexivity|].
  rewrite collapse_cons, (split_cons c s).
  destruct (isspace c) eqn:Hc; [exact IH|].
  destruct (starts_token s) eqn:Hs.
  - simpl. rewrite Hc, IH, collapse_starts; [reflexivity|].
    now apply starts_token_split.
  - destruct (split s) as [|t ts] eqn:Hsp.
    + simpl. now rewrite Hc.
    + rewrite (split_cons c), Hc, (split_cons SPACE).
      change (isspace SPACE) with true. cbv iota.
      rewrite IH.
      change (starts_token (SPACE :: collapse s)) with false. reflexivity.
Qed.

Lemma collapse_single_spaced (s : pystr) : single_spaced (collapse s).
Proof.
  unfold single_spaced.
  induction s as [|c0 s IH]; intros u c v E Hc.
  - destruct u; discriminate.
  - rewrite collapse_cons in E.
    destruct (isspace c0) eqn:Hc0; [now apply (IH u c v)|].
    assert (Hext : forall pre u',
               (c = SPACE /\
                (exists u'' a, u' = u'' ++ [a] /\ isspace a = false) /\
                (exists b v', v = b :: v' /\ isspace b = false)) ->
               c = SPACE /\
               (exists u'' a, pre ++ u' = u'' ++ [a] /\ isspace a = false) /\
               (exists b v', v = b :: v' /\ isspace b = false)).
    { intros pre u' (H1 & (u'' & a & -> & Ha) & H3).
      repeat split; [exact H1| |exact H3].
      exists (pre ++ u''), a. now rewrite app_assoc. }
    destruct (starts_token s) eqn:Hs.
    + destruct u as [|x u']; simpl in E; injection E as <- E; [congruence|].
      apply (Hext [c0] u'). now apply IH.
    + destruct (split s) as [|t ts] eqn:Hsp.
      * destruct u as [|x u']; simpl in E; injection E as <- E; [congruence|].
        destruct u'; discriminate.
      * destruct u as [|x u']; simpl in E; injection E as <- E; [congruence|].
        destruct u' as [|y u'']; simpl in E; injection E as <- E.
        -- repeat split.
           ++ now exists [], c0.
           ++ assert (Hne : split s <> []) by (rewrite Hsp; discriminate).
              destruct (collapse_head _ (collapse_starts s Hne))
                as (d & r & r' & Ed & _).
              pose proof (collapse_starts s Hne) as Hd.
              rewrite <- E, Ed in *. simpl in Hd.
              exists d, r. split; [reflexivity|].
              now apply negb_true_iff in Hd.
        -- apply (Hext [c0; SPACE] u''). now apply IH.
Qed.

Section WhitespaceAndNFKD.

Variable ucd : UnicodeData.
Hypothesis stable : whitespace_is_stable ucd.

Lemma reorder_insert_starter (w : codepoint) (l : pystr) :
  combining ucd w = 0%N -> reorder_insert ucd w l = w :: l.
Proof.
  intros H. destruct l as [|p l]; [reflexivity|]. simpl.
  now rewrite inversion_starter_l.
Qed.

Lemma reorder_insert_app_starter (c w : codepoint) (l m : pystr) :
  combining ucd w = 0%N ->
  reorder_insert ucd c (l ++ w :: m) = reorder_insert ucd c l ++ w :: m.
Proof.
  intros H. induction l as [|p l IH]; simpl.
  - now rewrite inversion_starter_r.
  - destruct (inversion ucd c p); [now rewrite IH|reflexivity].
Qed.

(** A starter separates the runs the canonical ordering sorts. *)
Lemma canonical_order_app_starter (a b : pystr) (w : codepoint) :
  combining ucd w = 0%N ->
  canonical_order ucd (a ++ w :: b)
  = canonical_order ucd a ++ w :: canonical_order ucd b.
Proof.
  intros H. induction a as [|c a IH]; simpl.
  - now apply reorder_insert_starter.
  - now rewrite IH, reorder_insert_app_starter.
Qed.

Lemma normalize_NFKD_app_ws (w : codepoint) :
  isspace w = true ->
  exists w', isspace w' = true /\
    forall u v, normalize_NFKD ucd (u ++ w :: v)
                = normalize_NFKD ucd u ++ w' :: normalize_NFKD ucd v.
Proof.
  intros Hw. destruct (stable w Hw) as (w' & Hkd & Hw' & Hccc).
  exists w'. split; [exact Hw'|]. intros u v. unfold normalize_NFKD.
  rewrite flat_map_app. simpl. rewrite Hkd. simpl.
  now apply canonical_order_app_starter.
Qed.

(** Without the trimming the result is the same: NFKD keeps leading and
    trailing whitespace in place and [collapse] removes it. *)
Lemma collapse_NFKD_lstrip (x : pystr) :
  collapse (normalize_NFKD ucd (lstrip x)) = collapse (normalize_NFKD ucd x).
Proof.
  induction x as [|w x IH]; [reflexivity|]. simpl.
  destruct (isspace w) eqn:Hw; [|reflexivity].
  destruct (normalize_NFKD_app_ws w Hw) as (w' & Hw' & E).
  rewrite IH, (E [] x : normalize_NFKD ucd (w :: x) = _). simpl.
  now rewrite collapse_space.
Qed.

Lemma collapse_NFKD_rstrip (x : pystr) :
  collapse (normalize_NFKD ucd (rstrip x)) = collapse (normalize_NFKD ucd x).
Proof.
  unfold rstrip. rewrite <- (rev_involutive x) at 2.
  induction (rev x) as [|w l IH]; [reflexivity|]. simpl.
  destruct (isspace w) eqn:Hw; [|reflexivity].
  destruct (normalize_NFKD_app_ws w Hw) as (w' & Hw' & E).
  rewrite IH, (E (rev l) []). unfold collapse.
  now rewrite split_ws_trailing.
Qed.

Lemma collapse_NFKD_strip (x : pystr) :
  collapse (normalize_NFKD ucd (strip x)) = collapse (normalize_NFKD ucd x).
Proof.
  unfold strip. now rewrite collapse_NFKD_rstrip, collapse_NFKD_lstrip.
Qed.

Lemma collapse_NFKD_variant (x y : pystr) :
  whitespace_variant x y ->
  collapse (normalize_NFKD ucd x) = collapse (normalize_NFKD ucd y).
Proof.
  induction 1 as [w x Hw|w x Hw|u v|u v| | |]; try congruence.
  - destruct (normalize_NFKD_app_ws w Hw) as (w' & Hw' & E).
    rewrite (E [] x : normalize_NFKD ucd (w :: x) = _). simpl.
    now rewrite collapse_space.
  - destruct (normalize_NFKD_app_ws w Hw) as (w' & Hw' & E).
    rewrite (E x []). unfold collapse. now rewrite split_ws_trailing.
  - destruct (normalize_NFKD_app_ws SPACE isspace_SPACE) as (w' & Hw' & E).
    rewrite (E u (SPACE :: v)), (E u v).
    rewrite (E [] v : normalize_NFKD ucd (SPACE :: v) = _). simpl.
    unfold collapse.
    now rewrite split_ws_run.
  - destruct (normalize_NFKD_app_ws SPACE isspace_SPACE) as (w1 & H1 & E1).
    destruct (normalize_NFKD_app_ws NBSP isspace_NBSP) as (w2 & H2 & E2).
    rewrite E1, E2. unfold collapse. now rewrite (split_ws_swap _ _ w2 w1).
Qed.

End WhitespaceAndNFKD.

(** C5, as the code has it.  The normalization applied is the
    compatibility decomposition NFKD, with no recomposition.  The name is
    trimmed, decomposed, and its whitespace runs (non-breaking spaces
    included) collapsed to single spaces: every whitespace character of the
    result is one U+0020 between two other characters.  The tokens of the
    result are those of the decomposed name, so no case mapping or other
    rewriting is applied.  Names that differ only by leading or trailing
    whitespace, by the length of a run of spaces or by a non-breaking space
    for a space, and names with the same NFKD form, are cleaned to the same
    result. *)
Theorem clean_feeder_name_NFKD (ucd : UnicodeData) (lib : Library)
        (x y : pystr) :
  whitespace_is_stable ucd ->
  let clean := fun s => clean_feeder_name ucd lib (CStr s) in
  clean x = collapse (normalize_NFKD ucd (strip x)) /\
  split (clean x) = split (normalize_NFKD ucd (strip x)) /\
  single_spaced (clean x) /\
  (whitespace_variant x y -> clean x = clean y) /\
  (normalize_NFKD ucd x = normalize_NFKD ucd y -> clean x = clean y).
Proof.
  intros Hws clean.
  assert (E : forall s, clean s = collapse (normalize_NFKD ucd (strip s))).
  { intros s. unfold clean, clean_feeder_name. simpl py_str.
    apply collapse_replace_nbsp. }
  split; [|split; [|split; [|split]]].
  - apply E.
  - rewrite E. apply split_collapse.
  - rewrite E. apply collapse_single_spaced.
  - intros H. rewrite !E, !(collapse_NFKD_strip ucd Hws).
    now apply collapse_NFKD_variant.
  - intros H. rewrite !E, !(collapse_NFKD_strip ucd Hws). now rewrite H.
Qed.

(** ** The metrics aggregator *)

Section SortFacts.

Context {A : Type}.
Variable leb : A -> A -> bool.

Lemma insert_sorted_perm (x : A) (l : list A) :
  Permutation (insert_sorted leb x l) (x :: l).
Proof.
  induction l as [|y l IH]; simpl; [reflexivity|].
  destruct (leb x y); [reflexivity|].
  rewrite IH. apply perm_swap.
Qed.

Lemma sort_perm (l : list A) : Permutation (sort leb l) l.
Proof.
  induction l as [|x l IH]; simpl; [reflexivity|].
  rewrite insert_sorted_perm. now constructor.
Qed.

Lemma sort_In (x : A) (l : list A) : In x (sort leb l) <-> In x l.
Proof.
  split; apply Permutation_in; [|symmetry]; apply sort_perm.
Qed.

Hypothesis leb_total : forall a b, leb a b = true \/ leb b a = true.
Hypothesis leb_trans :
  forall a b c, leb a b = true -> leb b c = true -> leb a c = true.

Lemma insert_sorted_sorted (x : A) (l : list A) :
  StronglySorted (fun a b => leb a b = true) l ->
  StronglySorted (fun a b => leb a b = true) (insert_sorted leb x l).
Proof.
  induction l as [|y l IH]; intros Hl; simpl.
  - repeat constructor.
  - inversion Hl as [|? ? Hs Hf]; subst.
    destruct (leb x y) eqn:E.
    + constructor; [exact Hl|]. constructor; [exact E|].
      eapply Forall_impl; [|exact Hf]. intros a Ha. now apply (leb_trans x y a).
    + constructor; [now apply IH|].
      assert (Hxl : Forall (fun b => leb y b = true) (x :: l)).
      { constructor; [|exact Hf].
        destruct (leb_total x y); [congruence|assumption]. }
      revert Hxl. apply Permutation_Forall. symmetry.
      apply insert_sorted_perm.
Qed.

Lemma sort_sorted (l : list A) :
  StronglySorted (fun a b => leb a b = true) (sort leb l).
Proof.
  induction l; simpl; [constructor|now apply insert_sorted_sorted].
Qed.

Lemma iloc_last_sorted (l : list A) (x : A) :
  (forall a, leb a a = true) ->
  StronglySorted (fun a b => leb a b = true) l ->
  iloc_last l = Ok x ->
  In x l /\ forall a, In a l -> leb a x = true.
Proof.
  intros Hrefl. induction l as [|y l IH]; intros Hs E; [discriminate|].
  inversion Hs as [|? ? Hs' Hf]; subst.
  destruct l as [|z l].
  - injection E as ->. split; [now left|].
    intros a [->|[]]. apply Hrefl.
  - destruct (IH Hs' E) as [Hin Hmax]. split; [now right|].
    intros a [->|Ha]; [|now apply Hmax].
    rewrite Forall_forall in Hf. now apply Hf.
Qed.

Lemma iloc_last_In (l : list A) (x : A) : iloc_last l = Ok x -> In x l.
Proof.
  induction l as [|y l IH]; [discriminate|].
  destruct l as [|z l]; [intros [= ->]; now left|].
  intros H. right. now apply IH.
Qed.

Lemma iloc_last_nonempty (l : list A) :
  l <> [] -> exists x, iloc_last l = Ok x.
Proof.
  induction l as [|y l IH]; intros H; [now elim H|].
  destruct l as [|z l]; [now exists y|].
  apply IH. discriminate.
Qed.

End SortFacts.



(** *** The groups *)

Lemma in_group_keys (df : list Row) (group_cols : list GroupCol)
      (k : list KeyVal) :
  In k (group_keys df group_cols) <->
  exists r, In r df /\ group_key group_cols r = Some k.
Proof.
  unfold group_keys. rewrite sort_In, nodup_In, in_flat_map.
  split; intros (r & Hr & H); exists r; (split; [exact Hr|]).
  - destruct (group_key group_cols r); simpl in H; [|tauto].
    destruct H as [->|[]]. reflexivity.
  - rewrite H. now left.
Qed.

Lemma in_group_iff (group_cols : list GroupCol) (k : list KeyVal) (r : Row) :
  in_group group_cols k r = true <-> group_key group_cols r = Some k.
Proof.
  unfold in_group. destruct (group_key group_cols r) as [k'|].
  - destruct (key_eq_dec k' k); split; congruence.
  - split; discriminate.
Qed.

Lemma in_group_rows (df : list Row) (group_cols : list GroupCol)
      (k : list KeyVal) (r : Row) :
  In r (group df group_cols k) <->
  In r df /\ group_key group_cols r = Some k.
Proof. unfold group. now rewrite filter_In, in_group_iff. Qed.

Lemma in_compute_metrics (df : list Row) (group_cols : list GroupCol)
      (m : MetricsRow) :
  In m (compute_metrics df group_cols) <->
  exists k, In k (group_keys df group_cols) /\
            m = group_metrics (combine group_cols k) (group df group_cols k).
Proof.
  unfold compute_metrics. rewrite in_map_iff.
  split; intros (k & H1 & H2); exists k; auto.
Qed.

(** Every row with a full key lies in a group of the output. *)
Lemma compute_metrics_covers (df : list Row) (group_cols : list GroupCol)
      (r : Row) (k : list KeyVal) :
  In r df -> group_key group_cols r = Some k ->
  In (group_metrics (combine group_cols k) (group df group_cols k))
     (compute_metrics df group_cols) /\
  In r (group df group_cols k).
Proof.
  intros Hr Hk. split.
  - apply in_compute_metrics. exists k. split; [|reflexivity].
    apply in_group_keys. now exists r.
  - now apply in_group_rows.
Qed.


(** *** What the aggregator reads *)

Lemma same_inputs_key (group_cols : list GroupCol) (r1 r2 : Row) :
  same_inputs group_cols r1 r2 ->
  group_key group_cols r1 = group_key group_cols r2.
Proof.
  intros (Hk & _). induction group_cols as [|c cs IH]; [reflexivity|].
  simpl. rewrite (Hk c (or_introl eq_refl)), IH; [reflexivity|].
  intros c' Hc'. apply Hk. now right.
Qed.

Lemma same_inputs_keys (group_cols : list GroupCol) (df1 df2 : list Row) :
  Forall2 (same_inputs group_cols) df1 df2 ->
  group_keys df1 group_cols = group_keys df2 group_cols.
Proof.
  intros H. unfold group_keys. do 2 f_equal.
  induction H as [|r1 r2 l1 l2 Hr _ IH]; [reflexivity|].
  simpl. now rewrite (same_inputs_key _ _ _ Hr), IH.
Qed.

Lemma same_inputs_sums (group_cols : list GroupCol) (df1 df2 : list Row)
      (k : list KeyVal) :
  Forall2 (same_inputs group_cols) df1 df2 ->
  customer_sum (group df1 group_cols k) = customer_sum (group df2 group_cols k)
  /\ weighted_sum (group df1 group_cols k)
     = weighted_sum (group df2 group_cols k).
Proof.
  unfold customer_sum, weighted_sum, group.
  induction 1 as [|r1 r2 l1 l2 Hr _ [IH1 IH2]]; [now split|].
  assert (E : in_group group_cols k r1 = in_group group_cols k r2)
    by (unfold in_group; now rewrite (same_inputs_key _ _ _ Hr)).
  destruct Hr as (_ & Hd & Hc). simpl. rewrite E.
  destruct (in_group group_cols k r2); simpl;
    [rewrite Hd, Hc, IH1, IH2|]; now split.
Qed.

(** C10. The output of [compute_metrics] depends only on the values of the
    grouping columns, the durations and the customer numbers: two tables
    that agree on them row by row, whatever their fault categories,
    interruption and restoration times, give the same metrics table. *)
Theorem compute_metrics_reads_only (group_cols : list GroupCol)
        (df1 df2 : list Row) :
  Forall2 (same_inputs group_cols) df1 df2 ->
  compute_metrics df1 group_cols = compute_metrics df2 group_cols.
Proof.
  intros H. unfold compute_metrics.
  rewrite (same_inputs_keys _ _ _ H). apply map_ext. intros k.
  destruct (same_inputs_sums _ _ _ k H) as [E1 E2].
  unfold group_metrics. now rewrite E1, E2.
Qed.

(** ** Rounding in binary64

    The operations of float64 are those of [SpecFloat], to which the
    primitive floats are bound by [FloatAxioms]. *)

Section Binary64.

Local Open Scope Z_scope.

Lemma shr_m_of_loc (m : Z) (l : location) :
  shr_m (shr_record_of_loc m l) = m.
Proof. destruct l as [|[ | | ]]; reflexivity. Qed.

Lemma shr_1_m (mrs : shr_record) :
  0 <= shr_m mrs -> shr_m (shr_1 mrs) = shr_m mrs / 2.
Proof.
  destruct mrs as [m r s]. simpl shr_m. intros H.
  rewrite <- Z.div2_div.
  destruct m as [|[p|p|]|p]; try reflexivity. lia.
Qed.

Lemma iter_pos_shr_1_m (p : BinNums.positive) (mrs : shr_record) :
  0 <= shr_m mrs ->
  shr_m (iter_pos shr_1 p mrs) = shr_m mrs / 2 ^ Z.pos p.
Proof.
  revert mrs. induction p as [p IH|p IH|]; intros mrs H; simpl iter_pos.
  - assert (H1 : 0 <= shr_m (shr_1 mrs))
      by (rewrite shr_1_m by exact H; apply Z.div_pos; lia).
    assert (H2 : 0 <= shr_m (iter_pos shr_1 p (shr_1 mrs)))
      by (rewrite IH by exact H1; apply Z.div_pos; [exact H1|lia]).
    rewrite IH by exact H2. rewrite IH by exact H1.
    rewrite shr_1_m by exact H.
    rewrite !Z.div_div by lia. f_equal.
    rewrite (Pos2Z.inj_xI p), Z.pow_add_r, Z.pow_mul_r by lia.
    change (2 ^ 2) with 4. change (2 ^ 1) with 2.
    assert (E : 4 ^ Z.pos p = 2 ^ Z.pos p * 2 ^ Z.pos p).
    { change 4 with (2 * 2). rewrite Z.pow_mul_l. reflexivity. }
    rewrite E. ring.
  - assert (H2 : 0 <= shr_m (iter_pos shr_1 p mrs))
      by (rewrite IH by exact H; apply Z.div_pos; [exact H|lia]).
    rewrite IH by exact H2. rewrite IH by exact H.
    rewrite !Z.div_div by lia. f_equal.
    rewrite (Pos2Z.inj_xO p), Z.pow_mul_r by lia.
    change (2 ^ 2) with (2 * 2). rewrite Z.pow_mul_l. reflexivity.
  - rewrite shr_1_m by exact H. reflexivity.
Qed.

(** Shifting a mantissa that is not negative by [n] bits. *)
Lemma shr_spec (mrs : shr_record) (e n : Z) :
  0 <= shr_m mrs ->
  shr_m (fst (shr mrs e n)) = shr_m mrs / 2 ^ Z.max n 0 /\
  snd (shr mrs e n) = e + Z.max n 0.
Proof.
  intros H. destruct n as [|p|p]; simpl shr; simpl fst; simpl snd.
  - change (2 ^ Z.max 0 0) with 1. rewrite Z.div_1_r. split; lia.
  - rewrite Z.max_l by lia. split; [|reflexivity].
    now apply iter_pos_shr_1_m.
  - rewrite Z.max_r by lia. change (2 ^ 0) with 1. rewrite Z.div_1_r.
    split; lia.
Qed.

Lemma round_nearest_even_bounds (m : Z) (l : location) :
  m <= round_nearest_even m l <= m + 1.
Proof.
  destruct l as [|[ | | ]]; simpl; try lia. destruct (Z.even m); lia.
Qed.

Lemma digits2_pos_bounds (p : BinNums.positive) :
  2 ^ (Z.pos (digits2_pos p) - 1) <= Z.pos p < 2 ^ Z.pos (digits2_pos p).
Proof.
  induction p as [p IH|p IH|]; simpl digits2_pos;
    [| |change (2 ^ (1 - 1)) with 1; change (2 ^ 1) with 2; lia].
  - rewrite Pos2Z.inj_succ, (Pos2Z.inj_xI p).
    replace (Z.succ (Z.pos (digits2_pos p)) - 1)
      with (Z.succ (Z.pos (digits2_pos p) - 1)) by lia.
    rewrite !Z.pow_succ_r by lia. lia.
  - rewrite Pos2Z.inj_succ, (Pos2Z.inj_xO p).
    replace (Z.succ (Z.pos (digits2_pos p)) - 1)
      with (Z.succ (Z.pos (digits2_pos p) - 1)) by lia.
    rewrite !Z.pow_succ_r by lia. lia.
Qed.

Lemma digits2_pos_le (p : BinNums.positive) (k : Z) :
  Z.pos p < 2 ^ k -> Z.pos (digits2_pos p) <= k.
Proof.
  intros H. destruct (digits2_pos_bounds p) as [Hlo _].
  destruct (Z.le_gt_cases (Z.pos (digits2_pos p)) k) as [|Hk]; [assumption|].
  exfalso.
  assert (0 <= k).
  { destruct (Z.le_gt_cases 0 k); [assumption|].
    rewrite Z.pow_neg_r in H by lia. lia. }
  pose proof (Z.pow_le_mono_r 2 k (Z.pos (digits2_pos p) - 1)). lia.
Qed.

Lemma digits2_pos_ge (p : BinNums.positive) (k : Z) :
  2 ^ (k - 1) <= Z.pos p -> 1 <= k -> k <= Z.pos (digits2_pos p).
Proof.
  intros H Hk. destruct (digits2_pos_bounds p) as [_ Hhi].
  destruct (Z.le_gt_cases k (Z.pos (digits2_pos p))) as [|Hd]; [assumption|].
  exfalso.
  pose proof (Z.pow_le_mono_r 2 (Z.pos (digits2_pos p)) (k - 1)). lia.
Qed.

Lemma fexp_eq (x : Z) : fexp prec emax x = Z.max (x - 53) (-1074).
Proof. reflexivity. Qed.

(** The rounding of a mantissa of at least 53 bits whose value is in the
    range of the normal numbers is a finite number of the same sign. *)
Lemma binary_round_aux_normal (s : bool) (p : BinNums.positive) (ex : Z)
      (l : location) :
  53 <= Z.pos (digits2_pos p) ->
  -1021 <= Z.pos (digits2_pos p) + ex <= 1023 ->
  exists m e, binary_round_aux prec emax s (Z.pos p) ex l = S754_finite s m e.
Proof.
  intros Hd Hr. set (d := Z.pos (digits2_pos p)) in *.
  destruct (digits2_pos_bounds p) as [Hlo Hhi]. fold d in Hlo, Hhi.
  unfold binary_round_aux.
  destruct (shr_fexp prec emax (Z.pos p) ex l) as [mrs' e'] eqn:E1.
  unfold shr_fexp in E1. rewrite fexp_eq in E1. simpl Zdigits2 in E1.
  fold d in E1.
  replace (Z.max (d + ex - 53) (-1074) - ex) with (d - 53) in E1 by lia.
  destruct (shr_spec (shr_record_of_loc (Z.pos p) l) ex (d - 53)) as [Hm He];
    [rewrite shr_m_of_loc; lia|].
  rewrite E1, shr_m_of_loc in Hm. rewrite E1 in He. cbn [fst snd] in Hm, He.
  rewrite Z.max_l in Hm, He by lia.
  assert (Hp : 0 < 2 ^ (d - 53)) by (apply Z.pow_pos_nonneg; lia).
  assert (E52 : 2 ^ (d - 1) = 2 ^ 52 * 2 ^ (d - 53))
    by (rewrite <- Z.pow_add_r by lia; f_equal; lia).
  assert (E53 : 2 ^ d = 2 ^ 53 * 2 ^ (d - 53))
    by (rewrite <- Z.pow_add_r by lia; f_equal; lia).
  assert (Hm1 : 2 ^ 52 <= shr_m mrs' < 2 ^ 53).
  { rewrite Hm. split.
    - apply Z.div_le_lower_bound; [exact Hp|]. rewrite Z.mul_comm. lia.
    - apply Z.div_lt_upper_bound; [exact Hp|]. rewrite Z.mul_comm. lia. }
  pose proof (round_nearest_even_bounds (shr_m mrs') (loc_of_shr_record mrs'))
    as Hrne.
  set (mr := round_nearest_even (shr_m mrs') (loc_of_shr_record mrs')) in *.
  destruct (shr_fexp prec emax mr e' loc_Exact) as [mrs'' e''] eqn:E2.
  unfold shr_fexp in E2. rewrite fexp_eq in E2.
  assert (Hmr : 2 ^ 52 <= mr <= 2 ^ 53) by lia.
  destruct mr as [|q|q] eqn:Emr; try (exfalso; change (2 ^ 52) with 4503599627370496 in Hmr; lia).
  simpl Zdigits2 in E2.
  assert (Hq1 : 53 <= Z.pos (digits2_pos q))
    by (apply digits2_pos_ge; [exact (proj1 Hmr)|lia]).
  assert (Hq2 : Z.pos (digits2_pos q) <= 54).
  { apply digits2_pos_le. change (2 ^ 54) with (2 * 2 ^ 53). lia. }
  set (d2 := Z.pos (digits2_pos q)) in *.
  replace (Z.max (d2 + e' - 53) (-1074) - e') with (d2 - 53) in E2 by lia.
  destruct (shr_spec (shr_record_of_loc (Z.pos q) loc_Exact) e' (d2 - 53))
    as [Hm2 He2]; [rewrite shr_m_of_loc; lia|].
  rewrite E2, shr_m_of_loc in Hm2. rewrite E2 in He2.
  cbn [fst snd] in Hm2, He2.
  assert (Hpos : 0 < shr_m mrs'').
  { rewrite Hm2. apply Z.div_str_pos. split.
    - apply Z.pow_pos_nonneg; lia.
    - assert (d2 - 53 = 0 \/ d2 - 53 = 1) as [->| ->] by lia.
      + change (2 ^ Z.max 0 0) with 1. lia.
      + change (2 ^ Z.max 1 0) with 2.
        change (2 ^ 52) with 4503599627370496 in Hmr. lia. }
  destruct (shr_m mrs'') as [|m|m]; try lia.
  exists m, e''.
  replace (e'' <=? emax - prec) with true; [reflexivity|].
  symmetry. apply Z.leb_le. change (emax - prec) with 971. lia.
Qed.

Lemma iter_xO_spec (d p : BinNums.positive) :
  Z.pos (Pos.iter xO p d) = Z.pos p * 2 ^ Z.pos d.
Proof.
  rewrite <- Pos2Z.inj_pow. rewrite <- Pos2Z.inj_mul. f_equal.
  revert p. induction d as [|d IH] using Pos.peano_ind; intros p.
  - simpl. rewrite Pos.pow_1_r. lia.
  - rewrite Pos.iter_succ, IH, Pos.pow_succ_r. lia.
Qed.

Lemma digits2_pos_unique (p : BinNums.positive) (k : Z) :
  2 ^ (k - 1) <= Z.pos p < 2 ^ k -> 1 <= k -> Z.pos (digits2_pos p) = k.
Proof.
  intros [H1 H2] Hk. apply Z.le_antisymm.
  - now apply digits2_pos_le.
  - now apply digits2_pos_ge.
Qed.

(** A positive integer below 2^1023 rounds to a finite positive number. *)
Lemma binary_normalize_pos (p : BinNums.positive) :
  Z.pos p < 2 ^ 1023 ->
  exists m e,
    binary_normalize prec emax (Z.pos p) 0 false = S754_finite false m e.
Proof.
  intros Hp. unfold binary_normalize, binary_round.
  rewrite fexp_eq. set (d := Z.pos (digits2_pos p)).
  assert (Hd : 1 <= d <= 1023).
  { split; [unfold d; lia|]. now apply digits2_pos_le. }
  destruct (digits2_pos_bounds p) as [Hlo Hhi]. fold d in Hlo, Hhi.
  unfold shl_align.
  replace (Z.max (d + 0 - 53) (-1074) - 0) with (d - 53) by lia.
  destruct (d - 53) as [|n|n] eqn:En.
  - apply binary_round_aux_normal; fold d; lia.
  - apply binary_round_aux_normal; fold d; lia.
  - replace (Z.max (d + 0 - 53) (-1074)) with (d - 53) by lia.
    assert (Hn : Z.pos n = 53 - d) by lia.
    assert (Hdig : Z.pos (digits2_pos (Pos.iter xO p n)) = 53).
    { apply digits2_pos_unique; [|lia].
      rewrite iter_xO_spec, Hn.
      assert (E52 : 2 ^ (53 - 1) = 2 ^ (d - 1) * 2 ^ (53 - d))
        by (rewrite <- Z.pow_add_r by lia; f_equal; lia).
      assert (E53 : 2 ^ 53 = 2 ^ d * 2 ^ (53 - d))
        by (rewrite <- Z.pow_add_r by lia; f_equal; lia).
      assert (0 < 2 ^ (53 - d)) by (apply Z.pow_pos_nonneg; lia).
      rewrite E52, E53. split.
      - apply Z.mul_le_mono_nonneg_r; lia.
      - apply Z.mul_lt_mono_pos_r; lia. }
    apply binary_round_aux_normal; rewrite Hdig; lia.
Qed.



Lemma div_eucl_exact (a b q : Z) :
  0 < b -> a = b * q -> Z.div_eucl a b = (q, 0).
Proof.
  intros Hb ->.
  rewrite (surjective_pairing (Z.div_eucl (b * q) b)).
  change (fst (Z.div_eucl (b * q) b)) with ((b * q) / b).
  change (snd (Z.div_eucl (b * q) b)) with ((b * q) mod b).
  rewrite (Z.mul_comm b q), Z.div_mul, Z.mod_mul by lia. reflexivity.
Qed.

Lemma SFdiv_same (s : bool) (m : BinNums.positive) (e : Z) :
  SFdiv prec emax (S754_finite s m e) (S754_finite s m e)
  = S754_finite false 4503599627370496 (-52).
Proof.
  unfold SFdiv, SFdiv_core_binary.
  replace (Zdigits2 (Zpos m) + e - (Zdigits2 (Zpos m) + e)) with 0 by lia.
  replace (e - e) with 0 by lia.
  change (Z.min (fexp prec emax 0) 0) with (-53).
  change (0 - -53) with 53.
  cbv iota beta.
  rewrite (div_eucl_exact (Z.shiftl (Zpos m) 53) (Zpos m) (2 ^ 53)).
  - rewrite xorb_nilpotent. 
    unfold new_location. destruct (Z.even (Z.pos m)); reflexivity.
  - lia.
  - rewrite Z.shiftl_mul_pow2 by lia. lia.
Qed.

Lemma shr_fexp_canonical (m : BinNums.positive) (e : Z) (l : location) :
  canonical_mantissa prec emax m e = true ->
  shr_fexp prec emax (Zpos m) e l = (shr_record_of_loc (Zpos m) l, e).
Proof.
  unfold canonical_mantissa, shr_fexp. intros H. apply Z.eqb_eq in H.
  simpl Zdigits2. rewrite H, Z.sub_diag. reflexivity.
Qed.

Lemma binary_round_aux_canonical (s : bool) (m : BinNums.positive) (e : Z) :
  bounded prec emax m e = true ->
  binary_round_aux prec emax s (Zpos m) e loc_Exact = S754_finite s m e.
Proof.
  unfold bounded. intros H. apply andb_true_iff in H as [Hc He].
  unfold binary_round_aux. rewrite (shr_fexp_canonical m e _ Hc).
  cbn [shr_record_of_loc shr_m loc_of_shr_record round_nearest_even].
  rewrite (shr_fexp_canonical m e _ Hc).
  cbn [shr_record_of_loc shr_m]. now rewrite He.
Qed.

Lemma SFdiv_one (y : spec_float) :
  valid_binary y = true -> SFdiv prec emax y (S754_finite false 4503599627370496 (-52)) = y.
Proof.
  destruct y as [s|s| |s m e]; intros Hv; try (destruct s; reflexivity);
    try reflexivity.
  simpl in Hv. pose proof Hv as Hb.
  unfold bounded in Hv. apply andb_true_iff in Hv as [Hc He].
  unfold canonical_mantissa in Hc. apply Z.eqb_eq in Hc. apply Z.leb_le in He.
  rewrite fexp_eq in Hc. change (emax - prec) with 971 in He.
  unfold SFdiv, SFdiv_core_binary. cbv zeta.
  change (Zdigits2 4503599627370496) with 53.
  simpl Zdigits2. set (d := Z.pos (digits2_pos m)) in *.
  rewrite fexp_eq, xorb_false_r.
  destruct (Z.eq_dec e (-1074)) as [E|E].
  - (* the smallest exponent *)
    replace (Z.min (Z.max (d + e - (53 + -52) - 53) (-1074)) (e - -52))
      with e by lia.
    replace (e - -52 - e) with 52 by lia. cbv iota.
    rewrite (div_eucl_exact (Z.shiftl (Z.pos m) 52) 4503599627370496 (Z.pos m)).
    + change (new_location 4503599627370496 0) with loc_Exact.
      now apply binary_round_aux_canonical.
    + lia.
    + rewrite Z.shiftl_mul_pow2 by lia. lia.
  - assert (Hd : d = 53) by lia.
    replace (Z.min (Z.max (d + e - (53 + -52) - 53) (-1074)) (e - -52))
      with (e - 1) by lia.
    replace (e - -52 - (e - 1)) with 53 by lia. cbv iota.
    rewrite (div_eucl_exact (Z.shiftl (Z.pos m) 53) 4503599627370496 (Z.pos m~0)).
    + change (new_location 4503599627370496 0) with loc_Exact.
      unfold bounded in Hb. apply andb_true_iff in Hb as [Hc' He'].
      unfold binary_round_aux.
      assert (E1 : shr_fexp prec emax (Z.pos m~0) (e - 1) loc_Exact
                   = (shr_record_of_loc (Z.pos m) loc_Exact, e)).
      { unfold shr_fexp. cbn [Zdigits2 digits2_pos].
        rewrite Pos2Z.inj_succ. fold d. rewrite fexp_eq.
        replace (Z.max (Z.succ d + (e - 1) - 53) (-1074) - (e - 1)) with 1
          by lia.
        unfold shr. cbn [iter_pos shr_record_of_loc shr_1 orb]. f_equal. lia. }
      rewrite E1.
      cbn [shr_record_of_loc shr_m loc_of_shr_record round_nearest_even].
      rewrite (shr_fexp_canonical m e _ Hc').
      cbn [shr_record_of_loc shr_m]. now rewrite He'.
    + lia.
    + rewrite Z.shiftl_mul_pow2 by lia. lia.
Qed.

End Binary64.

(** ** float64 and int64 *)

Lemma div_same (x : float) (s : bool) (m : BinNums.positive) (e : Z) :
  Prim2SF x = S754_finite s m e -> (x / x)%float = 1%float.
Proof.
  intros H. apply Prim2SF_inj. rewrite div_spec, H. unfold SF64div.
  rewrite SFdiv_same. reflexivity.
Qed.

Lemma div_one (y : float) : (y / 1)%float = y.
Proof.
  apply Prim2SF_inj. rewrite div_spec. apply SFdiv_one, Prim2SF_valid.
Qed.

Lemma div_nan (x : float) : (x / nan)%float = nan.
Proof.
  apply Prim2SF_inj. rewrite div_spec. unfold SF64div.
  change (Prim2SF nan) with S754_nan.
  destruct (Prim2SF x); reflexivity.
Qed.





(** A float64 above 0 is [inf] or a finite number with the sign bit
    clear, and is not equal to 0. *)
Lemma positive_float (x : float) :
  (0 <? x)%float = true ->
  (x = infinity \/ exists m e, Prim2SF x = S754_finite false m e) /\
  (x =? 0)%float = false.
Proof.
  rewrite ltb_spec, eqb_spec. change (Prim2SF 0) with (S754_zero false).
  destruct (Prim2SF x) as [s|s| |s m e] eqn:E; try destruct s;
    try discriminate; intros _; (split; [|reflexivity]).
  - left. apply Prim2SF_inj. now rewrite E.
  - right. now exists m, e.
Qed.


Lemma of_uint63_finite (z : Z) :
  (0 < z < 2 ^ 63)%Z ->
  exists m e, Prim2SF (of_uint63 (Uint63.of_Z z)) = S754_finite false m e.
Proof.
  intros H. rewrite of_uint63_spec, Uint63.of_Z_spec.
  rewrite Z.mod_small by (change Uint63.wB with (2 ^ 63)%Z; lia).
  destruct z as [|p|p]; try lia.
  apply binary_normalize_pos.
  apply Z.lt_trans with (2 ^ 63)%Z; [lia|]. apply Z.pow_lt_mono_r; lia.
Qed.

Lemma float_of_int64_finite (z : Z) :
  (0 < z < 2 ^ 63)%Z ->
  exists m e, Prim2SF (Machine.float_of_int64 z) = S754_finite false m e.
Proof.
  intros H. unfold Machine.float_of_int64.
  replace (z <? 0)%Z with false by (symmetry; apply Z.ltb_ge; lia).
  now apply of_uint63_finite.
Qed.

Lemma wrap64_range (z : Z) :
  (- 2 ^ 63 <= Machine.wrap64 z < 2 ^ 63)%Z.
Proof.
  unfold Machine.wrap64.
  pose proof (Z.mod_pos_bound (z + 2 ^ 63) (2 ^ 64)%Z eq_refl). lia.
Qed.


(** *** Sub-tables *)






Lemma select_filter {A : Type} (f : A -> bool) (l : list A) :
  Machine.select (map f l) l = filter f l.
Proof.
  induction l as [|x l IH]; simpl; [reflexivity|].
  destruct (f x); now rewrite IH.
Qed.

Lemma in_groupby (df : Machine.Frame) (group_cols : list GroupCol)
      (k : list KeyVal) (g : Machine.Frame) :
  In (k, g) (Machine.groupby df group_cols) <->
  In k (group_keys (Machine.rows df) group_cols) /\
  g = Machine.take (map (in_group group_cols k) (Machine.rows df)) df.
Proof.
  unfold Machine.groupby. rewrite in_map_iff. split.
  - intros (k' & [= -> <-] & Hk). now split.
  - intros [Hk ->]. now exists k.
Qed.

(** *** The lambda *)

(** A customer total above 0 is [inf] or converts to a finite float64
    with the sign bit clear; it is not equal to 0. *)
Lemma positive_total (np : Machine.Numpy) (s : Machine.Series) :
  let C := Machine.series_sum np s in
  Machine.gt0 C = true ->
  (C = Machine.F64 infinity \/
   exists m e, Prim2SF (Machine.to_float C) = S754_finite false m e) /\
  Machine.is_zero C = false.
Proof.
  destruct s as [values|values]; simpl; intros H.
  - apply Z.ltb_lt in H. split.
    + right. apply float_of_int64_finite.
      pose proof (wrap64_range (fold_right Z.add 0%Z values)). lia.
    + apply Z.eqb_neq. lia.
  - destruct (positive_float _ H) as [[E|E] Hz]; (split; [|exact Hz]).
    + left. now rewrite E.
    + now right.
Qed.

(** The three indices of one group, by the customer total. *)
Lemma group_metrics_cases (np : Machine.Numpy)
      (ix : list (GroupCol * KeyVal)) (g : Machine.Frame) :
  let C := Machine.customer_sum np g in
  let W := Machine.weighted_sum np g in
  let r := Machine.group_metrics np ix g in
  (Machine.gt0 C = true ->
   Machine.SAIDI r = Machine.truediv W C /\
   (C <> Machine.F64 infinity ->
    Machine.SAIFI r = Machine.F64 1 /\ Machine.CAIDI r = Machine.SAIDI r) /\
   (C = Machine.F64 infinity ->
    Machine.SAIFI r = Machine.F64 nan /\
    Machine.CAIDI r = Machine.F64 nan)) /\
  (Machine.gt0 C = false ->
   Machine.SAIDI r = Machine.I64 0 /\ Machine.SAIFI r = Machine.I64 0 /\
   Machine.CAIDI r = Machine.I64 0).
Proof.
  intros C W r. unfold r, Machine.group_metrics. simpl. fold C W.
  split; intros H; rewrite H; [|now repeat split].
  split; [reflexivity|]. split.
  - intros Hinf.
    destruct (positive_total np (Machine.Customer g) H)
      as [[E|(m & e & E)] _]; [now elim Hinf|].
    fold (Machine.customer_sum np g) in E. fold C in E.
    unfold Machine.truediv. simpl Machine.to_float.
    rewrite (div_same _ _ _ _ E), div_one. now split.
  - intros E. rewrite E. unfold Machine.truediv. simpl Machine.to_float.
    change (infinity / infinity)%float with nan.
    now rewrite div_nan.
Qed.


(** C1. Every row of the output of [compute_metrics] is that of a group
    of the table: a key [k] carried by at least one row, with the sub-table
    [g] of the rows that carry it.  With [C] the sum of the customer numbers
    of [g] as pandas computes it (in int64 with wrap-around, or in float64)
    and [W] the float64 sum of duration times customer number: when
    [C > 0], SAIDI is the float64 quotient [W / C]; SAIFI is 1 and CAIDI
    equals SAIDI unless [C] is [inf], for which SAIFI and CAIDI are NaN;
    when [C > 0] does not hold, the three are 0. *)
Theorem machine_metrics_formulas (np : Machine.Numpy) (df : Machine.Frame)
        (group_cols : list GroupCol) (r : Machine.MetricsRow) :
  In r (Machine.compute_metrics np df group_cols) ->
  exists (k : list KeyVal) (g : Machine.Frame),
    In k (group_keys (Machine.rows df) group_cols) /\
    g = Machine.take (map (in_group group_cols k) (Machine.rows df)) df /\
    Machine.rows g = group (Machine.rows df) group_cols k /\
    Machine.rows g <> [] /\
    Machine.index r = combine group_cols k /\
    let C := Machine.customer_sum np g in
    let W := Machine.weighted_sum np g in
    C = match Machine.Customer g with
        | Machine.Int64 values =>
            Machine.I64 (Machine.wrap64 (fold_right Z.add 0%Z values))
        | Machine.Float64 values =>
            Machine.F64 (Machine.np_sum np (map Machine.nan_to_zero values))
        end /\
    W = Machine.F64
          (Machine.np_sum np
             (map Machine.nan_to_zero
                  (map (fun x => (fst x * snd x)%float)
                       (combine (Machine.Duration g)
                                (Machine.as_float64 (Machine.Customer g))))))
    /\
    (Machine.gt0 C = true ->
     Machine.SAIDI r = Machine.truediv W C /\
     (C <> Machine.F64 infinity ->
      Machine.SAIFI r = Machine.F64 1 /\ Machine.CAIDI r = Machine.SAIDI r) /\
     (C = Machine.F64 infinity ->
      Machine.SAIFI r = Machine.F64 nan /\
      Machine.CAIDI r = Machine.F64 nan)) /\
    (Machine.gt0 C = false ->
     Machine.SAIDI r = Machine.I64 0 /\ Machine.SAIFI r = Machine.I64 0 /\
     Machine.CAIDI r = Machine.I64 0).
Proof.
  intros Hr. unfold Machine.compute_metrics in Hr.
  apply in_map_iff in Hr as ([k g] & <- & Hkg).
  apply in_groupby in Hkg as [Hk Hg].
  assert (Hrows : Machine.rows g = group (Machine.rows df) group_cols k)
    by (subst g; apply select_filter).
  exists k, g. split; [exact Hk|]. split; [exact Hg|].
  split; [exact Hrows|]. split.
  { rewrite Hrows. apply in_group_keys in Hk as (row & Hrow & Hrk).
    intros E. assert (H : In row (group (Machine.rows df) group_cols k))
      by now apply in_group_rows.
    now rewrite E in H. }
  split; [reflexivity|]. cbv zeta.
  split; [unfold Machine.customer_sum; now destruct (Machine.Customer g)|].
  split; [reflexivity|]. apply group_metrics_cases.
Qed.


(** ** Ingestion *)

Lemma column_length (data : list record) (label : pystr) (cells : list Cell) :
  column data label = Ok cells -> length cells = length data.
Proof.
  unfold column.
  destruct (filter _ (columns data)) as [|k [|k' ks]]; try discriminate.
  intros [= <-]. apply length_map.
Qed.

Lemma column_raise (data : list record) (label : pystr) (e : Exception) :
  column data label = Raise e -> e = KeyError label \/ e = NotASeries label.
Proof.
  unfold column.
  destruct (filter _ (columns data)) as [|k [|k' ks]];
    intros [= <-]; auto.
Qed.

Lemma subset_columns_raise (data : list record) (label : pystr)
      (e : Exception) :
  subset_columns data label = Raise e ->
  e = KeyError label /\ column data label = Raise e.
Proof.
  unfold subset_columns, column.
  destruct (filter _ (columns data)) as [|k ks]; [|discriminate].
  intros [= <-]. now split.
Qed.

Lemma subset_columns_nonempty (data : list record) (label : pystr)
      (cols : list (list Cell)) :
  subset_columns data label = Ok cols -> cols <> [].
Proof.
  unfold subset_columns.
  destruct (filter _ (columns data)) as [|k ks]; [discriminate|].
  intros [= <-]. discriminate.
Qed.

Lemma column_subset (data : list record) (label : pystr)
      (cells : list Cell) :
  column data label = Ok cells -> subset_columns data label = Ok [cells].
Proof.
  unfold subset_columns, column.
  destruct (filter _ (columns data)) as [|k [|k' ks]]; try discriminate.
  now intros [= <-].
Qed.

Lemma typed_rows_length (ucd : UnicodeData) (lib : Library) (month : pystr)
      (data : list record) (rows : list Row) :
  typed_rows ucd lib month data = Ok rows -> length rows = length data.
Proof.
  unfold typed_rows, bind.
  repeat match goal with
         | |- context [column data ?l] => destruct (column data l)
         end; try discriminate.
  destruct (subset_columns data _); [|discriminate].
  intros [= <-]. now rewrite length_map, length_seq.
Qed.

Lemma typed_rows_raise (ucd : UnicodeData) (lib : Library) (month : pystr)
      (data : list record) (e : Exception) :
  typed_rows ucd lib month data = Raise e ->
  exists label, In label required_columns /\ column data label = Raise e.
Proof.
  unfold typed_rows, bind, required_columns.
  repeat match goal with
         | |- context [column data ?l] =>
             destruct (column data l) eqn:?;
             [|intros [= <-]; eexists; split; [|eassumption]; simpl; tauto]
         end.
  destruct (subset_columns data _) eqn:E; [discriminate|].
  intros [= <-]. apply subset_columns_raise in E as [_ E].
  eexists; split; [|exact E]. simpl; tauto.
Qed.

(** Several columns labelled "Fault Category" are no error. *)
Lemma typed_rows_raise_fault (ucd : UnicodeData) (lib : Library)
      (month : pystr) (data : list record) (e : Exception) :
  typed_rows ucd lib month data = Raise e ->
  e <> NotASeries (lit "Fault Category").
Proof.
  unfold typed_rows, bind.
  repeat match goal with
         | |- context [column data ?l] =>
             destruct (column data l) eqn:?;
             [|intros [= <-];
               match goal with
               | H : column _ _ = Raise _ |- _ =>
                   apply column_raise in H as [-> | ->]; discriminate
               end]
         end.
  destruct (subset_columns data _) eqn:E; [discriminate|].
  intros [= <-]. apply subset_columns_raise in E as [-> _]. discriminate.
Qed.

Lemma typed_rows_fault (ucd : UnicodeData) (lib : Library) (month : pystr)
      (data : list record) (rows : list Row) (r : Row) :
  typed_rows ucd lib month data = Ok rows -> In r rows ->
  Fault_Category r <> [].
Proof.
  unfold typed_rows, bind.
  repeat match goal with
         | |- context [column data ?l] => destruct (column data l)
         end; try discriminate.
  destruct (subset_columns data _) as [fault|] eqn:E; [|discriminate].
  intros [= <-] Hr. apply in_map_iff in Hr as (i & <- & _).
  apply subset_columns_nonempty in E. simpl.
  destruct fault; [contradiction|discriminate].
Qed.

Lemma no_null_iff (cells : list Cell) :
  forallb (fun c => negb (is_null c)) cells = true <-> ~ In CNull cells.
Proof.
  rewrite forallb_forall. split.
  - intros H Hin. now apply H in Hin.
  - intros H c Hc. destruct c; [contradiction|reflexivity|reflexivity].
Qed.

Lemma complete_iff (r : Row) :
  complete r = true <->
  Customer_No r <> None /\ Duration_hr r <> None /\
  ~ In CNull (Fault_Category r).
Proof.
  unfold complete. rewrite !andb_true_iff, no_null_iff.
  destruct (Customer_No r), (Duration_hr r); simpl; split;
    try (intros [[? ?] ?]; discriminate);
    try (intros (? & ? & ?); congruence).
  - intros [_ H]. repeat split; try discriminate. exact H.
  - intros (_ & _ & H). now repeat split.
Qed.

(** The loop body succeeds on a worksheet that has the five columns. *)
Lemma ingest_succeeds (ucd : UnicodeData) (lib : Library) (month : pystr)
      (data : list record) :
  (forall label, In label required_columns ->
                 exists cells, column data label = Ok cells) ->
  exists out, ingest ucd lib month data = Ok out.
Proof.
  intros H. destruct (ingest ucd lib month data) as [out|e] eqn:E;
    [now exists out|].
  unfold ingest, bind in E.
  destruct (typed_rows ucd lib month data) as [rows|e'] eqn:Et;
    [discriminate|].
  apply typed_rows_raise in Et as (label & Hl & Hc).
  destruct (H label Hl) as (cells & Hok). congruence.
Qed.

(** C3. The cleaned table of a worksheet has at most as many rows as the
    worksheet has records; every row of it has a customer number, a duration
    and a fault category, this last one in every column that carries the
    label; and it is the table before [dropna] with the incomplete rows
    removed, the other rows as they were.  The loop body raises only when one
    of the five columns cannot be selected, and never because several
    columns are labelled "Fault Category". *)
Theorem ingest_keeps_complete_rows (ucd : UnicodeData) (lib : Library)
        (month : pystr) (data : list record) :
  match ingest ucd lib month data with
  | Ok out =>
      (length out <= length data)%nat /\
      Forall (fun r => Customer_No r <> None /\ Duration_hr r <> None /\
                       Fault_Category r <> [] /\
                       ~ In CNull (Fault_Category r)) out /\
      exists rows, typed_rows ucd lib month data = Ok rows /\
                   length rows = length data /\
                   out = filter complete rows
  | Raise e =>
      (exists label, In label required_columns /\
                     column data label = Raise e) /\
      e <> NotASeries (lit "Fault Category")
  end.
Proof.
  unfold ingest, bind.
  destruct (typed_rows ucd lib month data) as [rows|e] eqn:E.
  - pose proof (typed_rows_length _ _ _ _ _ E) as Hlen.
    split; [|split].
    + rewrite <- Hlen. apply filter_length_le.
    + apply Forall_forall. intros r Hr.
      apply filter_In in Hr as [Hin Hr].
      apply complete_iff in Hr as (Hc & Hd & Hf).
      split; [exact Hc|]. split; [exact Hd|]. split; [|exact Hf].
      exact (typed_rows_fault _ _ _ _ _ _ E Hin).
    + now exists rows.
  - split.
    + now apply (typed_rows_raise ucd lib month).
    + now apply (typed_rows_raise_fault ucd lib month data).
Qed.

(** ** The merger *)


Lemma load_ok (ucd : UnicodeData) (lib : Library)
      (worksheets : list (pystr * list record)) (frames : list (list Row)) :
  Forall2 (fun ws f => ingest ucd lib (fst ws) (snd ws) = Ok f)
          (with_records worksheets) frames ->
  forall all_data,
    load ucd lib worksheets all_data = Ok (all_data ++ frames).
Proof.
  revert frames. induction worksheets as [|[month data] rest IH];
    intros frames H all_data; simpl in *.
  - inversion H. now rewrite app_nil_r.
  - destruct data as [|rec0 data']; simpl in H; [now apply IH|].
    inversion H as [|? f ? frames' Hf Hrest]; subst. simpl in Hf.
    rewrite Hf. simpl. rewrite (IH frames' Hrest), <- app_assoc.
    reflexivity.
Qed.






(** ** The filters and the latest row *)

Lemma pystr_compare_antisym (a b : pystr) :
  pystr_compare b a = CompOpp (pystr_compare a b).
Proof.
  revert b. induction a as [|x a IH]; intros [|y b]; simpl; try reflexivity.
  rewrite (N.compare_antisym x y).
  destruct (N.compare x y); simpl; auto.
Qed.

Lemma pystr_compare_refl (a : pystr) : pystr_compare a a = Eq.
Proof.
  induction a as [|x a IH]; simpl; [reflexivity|].
  now rewrite N.compare_refl.
Qed.

Lemma pystr_le_trans (a b c : pystr) :
  not_Gt (pystr_compare a b) = true -> not_Gt (pystr_compare b c) = true ->
  not_Gt (pystr_compare a c) = true.
Proof.
  revert b c. induction a as [|x a IH]; intros [|y b] [|z c]; simpl;
    try reflexivity; try discriminate.
  destruct (N.compare_spec x y), (N.compare_spec y z), (N.compare_spec x z);
    subst; simpl; try reflexivity; try discriminate; try lia; try apply IH.
Qed.

Lemma keyval_compare_antisym (a b : KeyVal) :
  keyval_compare b a = CompOpp (keyval_compare a b).
Proof.
  destruct a, b; simpl; try reflexivity.
  - apply pystr_compare_antisym.
  - apply Z.compare_antisym.
Qed.

Lemma keyval_compare_refl (a : KeyVal) : keyval_compare a a = Eq.
Proof.
  destruct a; simpl; [apply pystr_compare_refl|apply Z.compare_refl].
Qed.

Lemma keyval_le_trans (a b c : KeyVal) :
  not_Gt (keyval_compare a b) = true -> not_Gt (keyval_compare b c) = true ->
  not_Gt (keyval_compare a c) = true.
Proof.
  destruct a, b, c; simpl; try reflexivity; try discriminate.
  - apply pystr_le_trans.
  - destruct (Z.compare_spec d d0), (Z.compare_spec d0 d1),
      (Z.compare_spec d d1); subst; simpl;
      try reflexivity; try discriminate; lia.
Qed.

Lemma field_leb_refl (c : GroupCol) (a : MetricsRow) : field_leb c a a = true.
Proof.
  unfold field_leb. destruct (field c a); [|reflexivity].
  now rewrite keyval_compare_refl.
Qed.

Lemma field_leb_total (c : GroupCol) (a b : MetricsRow) :
  field_leb c a b = true \/ field_leb c b a = true.
Proof.
  unfold field_leb. destruct (field c a) as [x|], (field c b) as [y|]; auto.
  rewrite (keyval_compare_antisym x y).
  destruct (keyval_compare x y); simpl; auto.
Qed.

Lemma field_leb_trans (c : GroupCol) (a b d : MetricsRow) :
  field_leb c a b = true -> field_leb c b d = true -> field_leb c a d = true.
Proof.
  unfold field_leb.
  destruct (field c a), (field c b), (field c d);
    try reflexivity; try discriminate.
  apply keyval_le_trans.
Qed.

(** C6. When the filtered metrics are not empty, the page shows the last row
    of the filtered rows sorted in ascending order of the field of the
    period ("Date" for daily, "Week" for weekly, "Month" for monthly), and
    charts all the filtered rows.  The sorted table is a rearrangement of
    the filtered rows in ascending order, so the row shown is a filtered
    row with the greatest value of the field. *)
Theorem latest_is_last_of_sorted (df_all : list Row) (period : Period)
        (selected_month selected_feeder : pystr) :
  let filtered := filtered_metrics (metrics_df period df_all)
                                   selected_month selected_feeder in
  let sort_col := match period with
            | Daily => col_Date
            | Weekly => col_Week
            | Monthly => col_Month
            end in
  let sorted := sort_values sort_col filtered in
  filtered <> [] ->
  exists latest,
    page df_all period selected_month selected_feeder
    = Ok (Metric latest, Charts filtered sort_col) /\
    iloc_last sorted = Ok latest /\
    Permutation sorted filtered /\
    StronglySorted (fun a b => field_leb sort_col a b = true) sorted /\
    In latest filtered /\
    forall m, In m filtered -> field_leb sort_col m latest = true.
Proof.
  intros filtered sort_col sorted Hne.
  assert (Hperm : Permutation sorted filtered) by apply sort_perm.
  assert (Hsorted : StronglySorted (fun a b => field_leb sort_col a b = true) sorted)
    by (apply sort_sorted; [apply field_leb_total|apply field_leb_trans]).
  assert (Hne' : sorted <> []).
  { intros E. rewrite E in Hperm. apply Permutation_nil in Hperm.
    now apply Hne. }
  destruct (iloc_last_nonempty sorted Hne') as (latest & Hlast).
  destruct (iloc_last_sorted (field_leb sort_col) sorted latest
              (field_leb_refl sort_col) Hsorted Hlast) as [Hin Hmax].
  exists latest. split; [|split; [|split; [|split; [|split]]]]; auto.
  - unfold page. fold filtered. unfold metrics_display, plots, bind.
    replace (group_field period) with sort_col by (now destruct period).
    fold sorted. rewrite Hlast.
    destruct filtered; [now elim Hne|reflexivity].
  - now apply (Permutation_in _ Hperm).
  - intros m Hm. apply Hmax. apply (Permutation_in _ (Permutation_sym Hperm)).
    exact Hm.
Qed.

(** C7. When the filtered metrics are empty the page shows the warning and
    the information message, and no metrics row. *)
Theorem no_data_is_signalled (df_all : list Row) (period : Period)
        (selected_month selected_feeder : pystr) :
  filtered_metrics (metrics_df period df_all) selected_month selected_feeder
  = [] ->
  page df_all period selected_month selected_feeder
  = Ok (Warning_NoMetrics, Info_NoTrend) /\
  forall latest trend,
    page df_all period selected_month selected_feeder
    <> Ok (Metric latest, trend).
Proof.
  intros H. unfold page. rewrite H. simpl. split; [reflexivity|].
  intros latest trend. discriminate.
Qed.

(** The row the page shows is always a row of the metrics table. *)
Lemma shown_row_is_computed (df_all : list Row) (period : Period)
      (selected_month selected_feeder : pystr) (latest : MetricsRow)
      (trend : TrendPanel) :
  page df_all period selected_month selected_feeder
  = Ok (Metric latest, trend) ->
  In latest (metrics_df period df_all) /\
  field col_Month latest = Some (KStr selected_month) /\
  field col_Feeder_Name latest = Some (KStr selected_feeder).
Proof.
  unfold page, metrics_display, bind.
  set (filtered := filtered_metrics (metrics_df period df_all)
                                    selected_month selected_feeder).
  destruct filtered as [|m0 ms] eqn:E; [discriminate|].
  destruct (iloc_last (sort_values (group_field period) (m0 :: ms)))
    as [l|] eqn:El; [|discriminate].
  intros [= -> _].
  apply iloc_last_In, (Permutation_in _ (sort_perm _ _)) in El.
  rewrite <- E in El. unfold filtered, filtered_metrics in El.
  apply filter_In in El as [Hin Hf].
  apply andb_true_iff in Hf as [Hm Hf]. unfold field_is in Hm, Hf.
  split; [exact Hin|].
  destruct (field col_Month latest) as [[s1|]|]; try discriminate.
  destruct (field col_Feeder_Name latest) as [[s2|]|]; try discriminate.
  unfold pystr_eqb in Hm, Hf.
  destruct (list_eq_dec N.eq_dec s1 selected_month); [|discriminate].
  destruct (list_eq_dec N.eq_dec s2 selected_feeder); [|discriminate].
  now subst.
Qed.

(** *** The latest row does not depend on how ties are sorted

    [sort_values] is modelled by a stable sort, pandas sorts with quicksort.
    The two agree on the filtered rows: no two of them have the same value
    of the sort field. *)

Lemma group_key_length (group_cols : list GroupCol) (r : Row)
      (k : list KeyVal) :
  group_key group_cols r = Some k -> length k = length group_cols.
Proof.
  revert k. induction group_cols as [|c cs IH]; intros k; simpl.
  - now intros [= <-].
  - destruct (key_cell c r); [|discriminate].
    destruct (group_key cs r) as [vs|]; [|discriminate].
    intros [= <-]. simpl. now rewrite (IH vs).
Qed.

Lemma combine_injective (cols : list GroupCol) (k1 k2 : list KeyVal) :
  length k1 = length cols -> length k2 = length cols ->
  combine cols k1 = combine cols k2 -> k1 = k2.
Proof.
  revert k1 k2. induction cols as [|c cs IH]; intros [|x k1] [|y k2];
    simpl; try discriminate; try reflexivity.
  intros E1 E2 E. injection E1 as E1. injection E2 as E2.
  injection E as -> E. f_equal. now apply IH.
Qed.

Lemma compute_metrics_index_injective (df : list Row)
      (group_cols : list GroupCol) (m1 m2 : MetricsRow) :
  In m1 (compute_metrics df group_cols) ->
  In m2 (compute_metrics df group_cols) ->
  index m1 = index m2 -> m1 = m2.
Proof.
  intros H1 H2 E.
  apply in_compute_metrics in H1 as (k1 & Hk1 & ->).
  apply in_compute_metrics in H2 as (k2 & Hk2 & ->).
  apply in_group_keys in Hk1 as (r1 & _ & Hk1).
  apply in_group_keys in Hk2 as (r2 & _ & Hk2).
  apply group_key_length in Hk1, Hk2. simpl in E.
  now rewrite (combine_injective group_cols k1 k2 Hk1 Hk2 E).
Qed.

Lemma pystr_compare_eq (a b : pystr) : pystr_compare a b = Eq -> a = b.
Proof.
  revert b. induction a as [|x a IH]; intros [|y b]; simpl;
    try reflexivity; try discriminate.
  destruct (N.compare_spec x y) as [Hxy|Hxy|Hxy]; try discriminate.
  intros H. subst. f_equal. now apply IH.
Qed.

Lemma keyval_compare_eq (a b : KeyVal) : keyval_compare a b = Eq -> a = b.
Proof.
  destruct a, b; simpl; try discriminate.
  - intros H. f_equal. now apply pystr_compare_eq.
  - intros H. f_equal. now apply Z.compare_eq.
Qed.

Lemma field_leb_antisym (c : GroupCol) (a b : MetricsRow) :
  field_leb c a b = true -> field_leb c b a = true -> field c a = field c b.
Proof.
  unfold field_leb.
  destruct (field c a) as [x|], (field c b) as [y|];
    try reflexivity; try discriminate.
  rewrite (keyval_compare_antisym x y).
  destruct (keyval_compare x y) eqn:E; simpl; try discriminate.
  intros _ _. f_equal. now apply keyval_compare_eq.
Qed.

Lemma field_is_true (c : GroupCol) (s : pystr) (m : MetricsRow) :
  field_is c s m = true -> field c m = Some (KStr s).
Proof.
  unfold field_is. destruct (field c m) as [[s'|]|]; try discriminate.
  unfold pystr_eqb. destruct (list_eq_dec N.eq_dec s' s); [|discriminate].
  now subst.
Qed.

Lemma filtered_field_injective (df_all : list Row) (period : Period)
      (selected_month selected_feeder : pystr) (m1 m2 : MetricsRow) :
  let filtered := filtered_metrics (metrics_df period df_all)
                                   selected_month selected_feeder in
  In m1 filtered -> In m2 filtered ->
  field (group_field period) m1 = field (group_field period) m2 ->
  m1 = m2.
Proof.
  intros filtered H1 H2 E.
  apply filter_In in H1 as [H1 F1]. apply filter_In in H2 as [H2 F2].
  apply andb_true_iff in F1 as [M1 F1]. apply andb_true_iff in F2 as [M2 F2].
  apply field_is_true in M1, F1, M2, F2.
  assert (Hix : index m1 = index m2).
  { destruct period; unfold metrics_df, daily_metrics, weekly_metrics,
      monthly_metrics in H1, H2;
      apply in_compute_metrics in H1 as (k1 & Hk1 & ->);
      apply in_compute_metrics in H2 as (k2 & Hk2 & ->);
      apply in_group_keys in Hk1 as (r1 & _ & Hk1);
      apply in_group_keys in Hk2 as (r2 & _ & Hk2);
      apply group_key_length in Hk1, Hk2;
      repeat (destruct k1 as [|? k1]; try discriminate);
      repeat (destruct k2 as [|? k2]; try discriminate);
      unfold field in *; simpl in *; congruence. }
  destruct period; simpl in H1, H2;
    eapply compute_metrics_index_injective; eauto.
Qed.

(** Any filtered row that is greatest for the sort field is the row shown. *)
Lemma latest_unique (df_all : list Row) (period : Period)
      (selected_month selected_feeder : pystr) (m latest : MetricsRow) :
  let filtered := filtered_metrics (metrics_df period df_all)
                                   selected_month selected_feeder in
  In m filtered -> In latest filtered ->
  (forall a, In a filtered -> field_leb (group_field period) a m = true) ->
  (forall a, In a filtered -> field_leb (group_field period) a latest = true) ->
  m = latest.
Proof.
  intros filtered Hm Hl Mm Ml.
  apply (filtered_field_injective df_all period selected_month selected_feeder);
    try assumption.
  apply field_leb_antisym; [now apply Ml|now apply Mm].
Qed.

(** * Examples

    The results above at the worksheets of [Demo]. *)

Lemma Demo_fully_decomposed : fully_decomposed Demo.ucd.
Proof.
  intros c d. simpl.
  destruct (c =? 0xA0)%N eqn:E1; [intros [<-|[]]; reflexivity|].
  destruct (c =? 0xB2)%N eqn:E2; [intros [<-|[]]; reflexivity|].
  destruct (c =? 0xC9)%N eqn:E3; [intros [<-|[<-|[]]]; reflexivity|].
  destruct (c =? 0xE9)%N eqn:E4; [intros [<-|[<-|[]]]; reflexivity|].
  destruct (c =? 0x2002)%N eqn:E5; [intros [<-|[]]; reflexivity|].
  intros [<-|[]]. now rewrite E1, E2, E3, E4, E5.
Qed.

Lemma Demo_space_is_inert : space_is_inert Demo.ucd.
Proof. split; reflexivity. Qed.

Lemma Demo_whitespace_is_stable : whitespace_is_stable Demo.ucd.
Proof.
  intros w Hw. simpl.
  destruct (N.eqb_spec w 0xA0); [now exists SPACE|].
  destruct (N.eqb_spec w 0xB2); [subst; discriminate|].
  destruct (N.eqb_spec w 0xC9); [subst; discriminate|].
  destruct (N.eqb_spec w 0xE9); [subst; discriminate|].
  destruct (N.eqb_spec w 0x2002); [now exists SPACE|].
  exists w. split; [reflexivity|]. split; [exact Hw|].
  destruct (N.eqb_spec w 0x301); [subst; discriminate|].
  destruct (N.eqb_spec w 0x323); [subst; discriminate|].
  destruct (N.eqb_spec w 0x327); [subst; discriminate|].
  reflexivity.
Qed.

(** The end-to-end example: both spellings of the feeder are cleaned to
    "Feeder A", and the monthly row has SAIDI 250/150, SAIFI 1 and CAIDI
    250/150. *)
Example january_monthly :
  Machine.compute_metrics Demo.numpy Demo.counts Demo.monthly
  = [Demo.metrics_A_Jan; Demo.zeros Demo.index_C_Mar].
Proof. vm_compute. reflexivity. Qed.

(** The name "é" (U+00E9) is cleaned to "e" followed by the combining acute
    accent; normalization by canonical decomposition and recomposition keeps
    U+00E9. *)
Lemma clean_feeder_name_not_NFC :
  clean_feeder_name Demo.ucd Demo.lib (CStr [0xE9%N]) = [0x65%N; 0x301%N] /\
  name_normalizer_spec Demo.ucd [0xE9%N] = [0xE9%N] /\
  clean_feeder_name Demo.ucd Demo.lib (CStr [0xE9%N])
  <> name_normalizer_spec Demo.ucd [0xE9%N].
Proof.
  split; [reflexivity|]. split; [reflexivity|]. vm_compute. discriminate.
Qed.

Lemma clean_feeder_name_NFKD_witness :
  whitespace_is_stable Demo.ucd /\
  let clean := fun s => clean_feeder_name Demo.ucd Demo.lib (CStr s) in
  let x := lit "  Feeder  A " in
  let y := lit "Feeder A" in
  clean x = collapse (normalize_NFKD Demo.ucd (strip x)) /\
  split (clean x) = split (normalize_NFKD Demo.ucd (strip x)) /\
  single_spaced (clean x) /\
  (whitespace_variant x y -> clean x = clean y) /\
  (normalize_NFKD Demo.ucd x = normalize_NFKD Demo.ucd y -> clean x = clean y).
Proof.
  split; [exact Demo_whitespace_is_stable|].
  exact (clean_feeder_name_NFKD Demo.ucd Demo.lib (lit "  Feeder  A ")
           (lit "Feeder A") Demo_whitespace_is_stable).
Defined.

Lemma clean_feeder_name_idempotent_witness :
  fully_decomposed Demo.ucd /\ space_is_inert Demo.ucd /\
  clean_feeder_name Demo.ucd Demo.lib
    (CStr (clean_feeder_name Demo.ucd Demo.lib
             (CStr [0x20; 0xC9; 0xA0; 0x2002; 0x41; 0x301; 0x327; 0x20]%N)))
  = clean_feeder_name Demo.ucd Demo.lib
      (CStr [0x20; 0xC9; 0xA0; 0x2002; 0x41; 0x301; 0x327; 0x20]%N).
Proof.
  split; [exact Demo_fully_decomposed|].
  split; [exact Demo_space_is_inert|].
  exact (clean_feeder_name_idempotent Demo.ucd Demo.lib
           [0x20; 0xC9; 0xA0; 0x2002; 0x41; 0x301; 0x327; 0x20]%N
           Demo_fully_decomposed Demo_space_is_inert).
Defined.


(** Two customer numbers 2^1023 are finite, their float64 sum is [inf]:
    the total is above 0, yet SAIFI is NaN and not 1, and so are SAIDI and
    CAIDI. *)
Lemma saifi_is_nan_when_total_overflows :
  exists (r : Machine.MetricsRow) (g : Machine.Frame),
    Machine.compute_metrics Demo.numpy Demo.huge Demo.monthly = [r] /\
    Machine.groupby Demo.huge Demo.monthly = [(Demo.key_A_Jan, g)] /\
    Machine.Customer g = Machine.Float64 [0x1p1023; 0x1p1023]%float /\
    Machine.customer_sum Demo.numpy g = Machine.F64 infinity /\
    Machine.gt0 (Machine.customer_sum Demo.numpy g) = true /\
    Machine.SAIDI r = Machine.F64 nan /\
    Machine.SAIFI r = Machine.F64 nan /\
    Machine.SAIFI r <> Machine.F64 1 /\
    Machine.CAIDI r = Machine.F64 nan.
Proof.
  do 2 eexists. split; [vm_compute; reflexivity|].
  split; [vm_compute; reflexivity|].
  repeat (split; [reflexivity|]).
  split; [discriminate|reflexivity].
Qed.

Lemma machine_metrics_formulas_witness :
  In Demo.metrics_A_Jan
     (Machine.compute_metrics Demo.numpy Demo.counts Demo.monthly) /\
  exists (k : list KeyVal) (g : Machine.Frame),
    In k (group_keys (Machine.rows Demo.counts) Demo.monthly) /\
    g = Machine.take (map (in_group Demo.monthly k)
                          (Machine.rows Demo.counts)) Demo.counts /\
    Machine.rows g = group (Machine.rows Demo.counts) Demo.monthly k /\
    Machine.rows g <> [] /\
    Machine.index Demo.metrics_A_Jan = combine Demo.monthly k /\
    let C := Machine.customer_sum Demo.numpy g in
    let W := Machine.weighted_sum Demo.numpy g in
    C = match Machine.Customer g with
        | Machine.Int64 values =>
            Machine.I64 (Machine.wrap64 (fold_right Z.add 0%Z values))
        | Machine.Float64 values =>
            Machine.F64 (Machine.np_sum Demo.numpy
                           (map Machine.nan_to_zero values))
        end /\
    W = Machine.F64
          (Machine.np_sum Demo.numpy
             (map Machine.nan_to_zero
                  (map (fun x => (fst x * snd x)%float)
                       (combine (Machine.Duration g)
                                (Machine.as_float64 (Machine.Customer g))))))
    /\
    (Machine.gt0 C = true ->
     Machine.SAIDI Demo.metrics_A_Jan = Machine.truediv W C /\
     (C <> Machine.F64 infinity ->
      Machine.SAIFI Demo.metrics_A_Jan = Machine.F64 1 /\
      Machine.CAIDI Demo.metrics_A_Jan = Machine.SAIDI Demo.metrics_A_Jan) /\
     (C = Machine.F64 infinity ->
      Machine.SAIFI Demo.metrics_A_Jan = Machine.F64 nan /\
      Machine.CAIDI Demo.metrics_A_Jan = Machine.F64 nan)) /\
    (Machine.gt0 C = false ->
     Machine.SAIDI Demo.metrics_A_Jan = Machine.I64 0 /\
     Machine.SAIFI Demo.metrics_A_Jan = Machine.I64 0 /\
     Machine.CAIDI Demo.metrics_A_Jan = Machine.I64 0).
Proof.
  assert (H : In Demo.metrics_A_Jan
                 (Machine.compute_metrics Demo.numpy Demo.counts Demo.monthly))
    by (vm_compute; left; reflexivity).
  split; [exact H|].
  exact (machine_metrics_formulas Demo.numpy Demo.counts Demo.monthly
           Demo.metrics_A_Jan H).
Defined.




Lemma compute_metrics_reads_only_witness :
  map Fault_Category (map Demo.recoded Demo.table)
  <> map Fault_Category Demo.table /\
  compute_metrics Demo.table Demo.monthly
  = compute_metrics (map Demo.recoded Demo.table) Demo.monthly.
Proof.
  split; [vm_compute; discriminate|].
  apply (compute_metrics_reads_only Demo.monthly Demo.table
           (map Demo.recoded Demo.table)).
  vm_compute.
  repeat (constructor;
          [split; [intros c [<-|[<-|[]]]; reflexivity|split; reflexivity]|]).
  constructor.
Defined.



Example ingest_february :
  length (snd Demo.february) = 1%nat /\
  ingest Demo.ucd Demo.lib (fst Demo.february) (snd Demo.february) = Ok [].
Proof. split; reflexivity. Qed.

(** Two columns labelled "Fault Category" are no Series, yet the worksheet
    is cleaned: the row with a value in both is kept, the other dropped. *)
Example ingest_june :
  column (snd Demo.june) (lit "Fault Category")
  = Raise (NotASeries (lit "Fault Category")) /\
  length (snd Demo.june) = 2%nat /\
  exists r,
    ingest Demo.ucd Demo.lib (fst Demo.june) (snd Demo.june) = Ok [r] /\
    Customer_No r = Some 10 /\
    Fault_Category r = [CStr (lit "Line fault"); CStr (lit "LF")].
Proof.
  split; [reflexivity|]. split; [reflexivity|].
  eexists. split; [vm_compute; reflexivity|]. split; reflexivity.
Qed.

Lemma latest_is_last_of_sorted_witness :
  let filtered := filtered_metrics (metrics_df Daily Demo.table)
                                   (lit "Jan") (lit "Feeder A") in
  let sorted := sort_values col_Date filtered in
  filtered <> [] /\
  exists latest,
    page Demo.table Daily (lit "Jan") (lit "Feeder A")
    = Ok (Metric latest, Charts filtered col_Date) /\
    iloc_last sorted = Ok latest /\
    Permutation sorted filtered /\
    StronglySorted (fun a b => field_leb col_Date a b = true) sorted /\
    In latest filtered /\
    forall m, In m filtered -> field_leb col_Date m latest = true.
Proof.
  intros filtered sorted.
  assert (H : filtered <> []) by (vm_compute; discriminate).
  split; [exact H|].
  exact (latest_is_last_of_sorted Demo.table Daily (lit "Jan")
           (lit "Feeder A") H).
Defined.

Example latest_january :
  exists latest trend,
    page Demo.table Daily (lit "Jan") (lit "Feeder A")
    = Ok (Metric latest, trend) /\
    field col_Date latest = Some (KDate 19724).
Proof. do 2 eexists. split; [vm_compute; reflexivity|reflexivity]. Qed.

Lemma no_data_is_signalled_witness :
  filtered_metrics (metrics_df Daily Demo.table) (lit "Feb") (lit "Feeder A")
  = [] /\
  page Demo.table Daily (lit "Feb") (lit "Feeder A")
  = Ok (Warning_NoMetrics, Info_NoTrend) /\
  forall latest trend,
    page Demo.table Daily (lit "Feb") (lit "Feeder A")
    <> Ok (Metric latest, trend).
Proof.
  assert (H : filtered_metrics (metrics_df Daily Demo.table) (lit "Feb")
                               (lit "Feeder A") = [])
    by (vm_compute; reflexivity).
  split; [exact H|].
  exact (no_data_is_signalled Demo.table Daily (lit "Feb") (lit "Feeder A") H).
Defined.

(** * Further properties *)

(** ** The private key *)

Lemma pystr_ind2 (P : pystr -> Prop) :
  P [] -> (forall c, P [c]) ->
  (forall c d s, P s -> P (d :: s) -> P (c :: d :: s)) ->
  forall s, P s.
Proof.
  intros H0 H1 H2 s.
  assert (H : P s /\ forall c, P (c :: s)); [|exact (proj1 H)].
  induction s as [|d s [IH1 IH2]]; [now split|].
  split; [apply IH2|]. intros c. apply H2; [exact IH1|apply IH2].
Qed.

Lemma replace_escaped_newlines_cons (c d : codepoint) (s : pystr) :
  replace_escaped_newlines (c :: d :: s) =
  if ((c =? BACKSLASH) && (d =? LETTER_N))%N
  then LINE_FEED :: replace_escaped_newlines s
  else c :: replace_escaped_newlines (d :: s).
Proof. reflexivity. Qed.

Lemma replace_escaped_newlines_head (d x : codepoint) (s v : pystr) :
  replace_escaped_newlines (d :: s) = x :: v -> x = LINE_FEED \/ x = d.
Proof.
  destruct s as [|e s]; [intros [= <- _]; now right|].
  rewrite replace_escaped_newlines_cons.
  destruct ((d =? BACKSLASH) && (e =? LETTER_N))%N; intros [= <- _]; auto.
Qed.

Lemma replace_escaped_newlines_fixed (s : pystr) :
  ~ has_escaped_newline s -> replace_escaped_newlines s = s.
Proof.
  induction s as [| |c d s IH1 IH2] using pystr_ind2; intros H;
    try reflexivity.
  rewrite replace_escaped_newlines_cons.
  destruct ((c =? BACKSLASH) && (d =? LETTER_N))%N eqn:E.
  - exfalso. apply H. apply andb_true_iff in E as [Ec Ed].
    apply N.eqb_eq in Ec, Ed. subst. now exists [], s.
  - f_equal. apply IH2. intros (u & v & Huv). apply H.
    exists (c :: u), v. simpl. now rewrite Huv.
Qed.

Lemma replace_escaped_newlines_none (s : pystr) :
  ~ has_escaped_newline (replace_escaped_newlines s).
Proof.
  induction s as [|c|c d s IH1 IH2] using pystr_ind2.
  - intros (u & v & H). destruct u; discriminate.
  - intros (u & v & H). destruct u as [|x [|y u]]; discriminate.
  - rewrite replace_escaped_newlines_cons.
    destruct ((c =? BACKSLASH) && (d =? LETTER_N))%N eqn:E.
    + intros (u & v & H). destruct u as [|x u]; [discriminate|].
      injection H as _ H. apply IH1. now exists u, v.
    + intros (u & v & H). destruct u as [|x u].
      * injection H as -> H.
        apply replace_escaped_newlines_head in H as [H|H];
          [discriminate|]. subst d. discriminate.
      * injection H as _ H. apply IH2. now exists u, v.
Qed.

(** X1. After the replacement the key holds no backslash directly followed
    by the letter n, and replacing again changes nothing. *)
Theorem replace_escaped_newlines_complete (s : pystr) :
  ~ has_escaped_newline (replace_escaped_newlines s) /\
  replace_escaped_newlines (replace_escaped_newlines s)
  = replace_escaped_newlines s.
Proof.
  split; [apply replace_escaped_newlines_none|].
  apply replace_escaped_newlines_fixed, replace_escaped_newlines_none.
Qed.

(** X2. The replacement undoes the escaping of line feeds: on a text
    without backslashes, writing every line feed as backslash-n and then
    replacing gives the text back. *)
Theorem replace_escaped_newlines_unescapes (key : pystr) :
  Forall (fun c => c <> BACKSLASH) key ->
  replace_escaped_newlines (escape_newlines key) = key.
Proof.
  induction 1 as [|c key Hc _ IH]; [reflexivity|].
  change (escape_newlines (c :: key))
    with ((if (c =? LINE_FEED)%N then [BACKSLASH; LETTER_N] else [c])
          ++ escape_newlines key).
  destruct (N.eqb_spec c LINE_FEED) as [->|Hlf].
  - simpl. now rewrite IH.
  - simpl. apply N.eqb_neq in Hc.
    destruct (escape_newlines key) as [|d rest] eqn:E.
    + now rewrite <- IH.
    + rewrite Hc. simpl andb. cbv iota. now rewrite IH.
Qed.

(** ** Blank and cleaned names *)

Lemma lstrip_blank (x : pystr) : forallb isspace x = true -> lstrip x = [].
Proof.
  induction x as [|c x IH]; [reflexivity|]. simpl.
  intros H. apply andb_true_iff in H as [Hc Hx]. rewrite Hc. now apply IH.
Qed.

(** X3. A name that is empty or made of whitespace only is cleaned to the
    empty string. *)
Theorem blank_name_cleans_to_empty (ucd : UnicodeData) (lib : Library)
        (x : pystr) :
  forallb isspace x = true -> clean_feeder_name ucd lib (CStr x) = [].
Proof.
  intros H. unfold clean_feeder_name, strip. simpl py_str.
  now rewrite (lstrip_blank x H).
Qed.

(** Cleaning a cleaned name changes nothing, whatever the cell was. *)
Lemma clean_feeder_name_stable (ucd : UnicodeData) (lib : Library)
      (name : Cell) :
  fully_decomposed ucd -> space_is_inert ucd ->
  clean_feeder_name ucd lib (CStr (clean_feeder_name ucd lib name))
  = clean_feeder_name ucd lib name.
Proof.
  intros Hfd [Hkd Hccc]. unfold clean_feeder_name.
  change (py_str lib (CStr ?s)) with s.
  rewrite !collapse_replace_nbsp.
  rewrite strip_collapse, normalize_NFKD_fixed, collapse_idempotent.
  - reflexivity.
  - intros c Hc. apply in_collapse in Hc as [->|Hc]; [exact Hkd|].
    now apply (normalize_NFKD_chars ucd (strip (py_str lib name))).
  - apply collapse_ordered; [exact Hccc|apply normalize_NFKD_ordered].
Qed.

(** ** The cleaned table of a worksheet *)

Lemma typed_rows_In (ucd : UnicodeData) (lib : Library) (month : pystr)
      (data : list record) (rows : list Row) (r : Row) :
  typed_rows ucd lib month data = Ok rows -> In r rows ->
  exists feeder interruption restoration customer fault itime rtime i,
    r = build_row ucd lib month feeder interruption restoration customer
                  fault itime rtime i.
Proof.
  unfold typed_rows, bind.
  repeat match goal with
         | |- context [column data ?l] => destruct (column data l)
         end; try discriminate.
  destruct (subset_columns data _); [|discriminate].
  intros [= <-] Hr. apply in_map_iff in Hr as (i & <- & _).
  now repeat eexists.
Qed.

Lemma ingest_In (ucd : UnicodeData) (lib : Library) (month : pystr)
      (data : list record) (out : list Row) (r : Row) :
  ingest ucd lib month data = Ok out -> In r out ->
  complete r = true /\
  exists feeder interruption restoration customer fault itime rtime i,
    r = build_row ucd lib month feeder interruption restoration customer
                  fault itime rtime i.
Proof.
  unfold ingest, bind.
  destruct (typed_rows ucd lib month data) as [rows|] eqn:E; [|discriminate].
  intros [= <-] Hr. apply filter_In in Hr as [Hr Hc].
  split; [exact Hc|]. now apply (typed_rows_In ucd lib month data rows).
Qed.

Lemma complete_build_row_dated (ucd : UnicodeData) (lib : Library)
      (month : pystr) (feeder interruption restoration customer : list Cell)
      (fault : list (list Cell))
      (itime rtime : list (option Z)) (i : nat) :
  let r := build_row ucd lib month feeder interruption restoration customer
                     fault itime rtime i in
  complete r = true -> dated lib r.
Proof.
  intros r H. unfold complete in H.
  apply andb_true_iff in H as [H _]. apply andb_true_iff in H as [_ H].
  unfold r, build_row, dated in *. simpl in *.
  destruct (nth i itime None) as [it|]; [|discriminate].
  destruct (nth i rtime None) as [rt|]; [|discriminate].
  now exists it, rt.
Qed.

Lemma ingest_row_facts (ucd : UnicodeData) (lib : Library) (month : pystr)
      (data : list record) (out : list Row) (r : Row) :
  ingest ucd lib month data = Ok out -> In r out ->
  Month r = month /\ dated lib r /\ complete r = true.
Proof.
  intros H Hr.
  destruct (ingest_In ucd lib month data out r H Hr)
    as (Hc & f & i1 & i2 & c & fc & it & rt & i & E).
  subst r. split; [reflexivity|]. split; [|exact Hc].
  now apply complete_build_row_dated.
Qed.

(** X4. Every row of the cleaned table of a worksheet carries the title of
    the worksheet as its month and has both timestamps; its duration is the
    difference of the timestamps in hours, and its date and week are those
    of the interruption: no row of a cleaned table lacks a date or a week. *)
Theorem ingest_rows_dated (ucd : UnicodeData) (lib : Library) (month : pystr)
        (data : list record) (out : list Row) :
  ingest ucd lib month data = Ok out ->
  Forall (fun r => Month r = month /\ dated lib r) out.
Proof.
  intros H. apply Forall_forall. intros r Hr.
  destruct (ingest_row_facts ucd lib month data out r H Hr) as (Hm & Hd & _).
  now split.
Qed.

(** X5. Every feeder name of a cleaned table is in the form the cleaning
    produces: its whitespace is single U+0020 characters between other
    characters, and cleaning it again returns it unchanged. *)
Theorem ingest_feeder_names_clean (ucd : UnicodeData) (lib : Library)
        (month : pystr) (data : list record) (out : list Row) :
  fully_decomposed ucd -> space_is_inert ucd ->
  ingest ucd lib month data = Ok out ->
  Forall (fun r => single_spaced (Feeder_Name r) /\
                   clean_feeder_name ucd lib (CStr (Feeder_Name r))
                   = Feeder_Name r) out.
Proof.
  intros Hfd Hsp H. apply Forall_forall. intros r Hr.
  destruct (ingest_In ucd lib month data out r H Hr)
    as (_ & f & i1 & i2 & c & fc & it & rt & i & E).
  subst r. simpl. split.
  - unfold clean_feeder_name. apply collapse_single_spaced.
  - now apply clean_feeder_name_stable.
Qed.

(** ** The unified table *)

Lemma load_inv (ucd : UnicodeData) (lib : Library)
      (worksheets : list (pystr * list record)) :
  forall all_data all_data',
    load ucd lib worksheets all_data = Ok all_data' ->
    exists frames,
      Forall2 (fun ws f => ingest ucd lib (fst ws) (snd ws) = Ok f)
              (with_records worksheets) frames /\
      all_data' = all_data ++ frames.
Proof.
  induction worksheets as [|[month data] rest IH]; intros all_data all_data';
    simpl.
  - intros [= <-]. exists []. split; [constructor|now rewrite app_nil_r].
  - destruct data as [|rec0 data']; [apply IH|].
    destruct (ingest ucd lib month (rec0 :: data')) as [f|] eqn:E; simpl;
      [|discriminate].
    intros H. apply IH in H as (frames & HF & ->).
    exists (f :: frames). split; [now constructor|].
    now rewrite <- app_assoc.
Qed.

Lemma df_all_inv (ucd : UnicodeData) (lib : Library)
      (worksheets : list (pystr * list record)) (df : list Row) :
  df_all ucd lib worksheets = Ok df ->
  exists frames,
    Forall2 (fun ws f => ingest ucd lib (fst ws) (snd ws) = Ok f)
            (with_records worksheets) frames /\
    frames <> [] /\ df = concat frames.
Proof.
  unfold df_all, bind.
  destruct (load ucd lib worksheets []) as [all_data|] eqn:E; [|discriminate].
  apply load_inv in E as (frames & HF & ->). simpl.
  destruct frames; [discriminate|]. intros [= <-].
  exists (l :: frames). repeat split; [exact HF|discriminate].
Qed.

Lemma df_all_row (ucd : UnicodeData) (lib : Library)
      (worksheets : list (pystr * list record)) (df : list Row) (r : Row) :
  df_all ucd lib worksheets = Ok df -> In r df ->
  exists ws out, In ws worksheets /\ snd ws <> [] /\
                 ingest ucd lib (fst ws) (snd ws) = Ok out /\ In r out.
Proof.
  intros H Hr. apply df_all_inv in H as (frames & HF & _ & ->).
  apply in_concat in Hr as (out & Hout & Hr).
  assert (Hex : exists ws, In ws (with_records worksheets) /\
                           ingest ucd lib (fst ws) (snd ws) = Ok out).
  { clear Hr. induction HF as [|ws f l1 l2 Hws _ IH]; [destruct Hout|].
    destruct Hout as [->|Hout].
    - exists ws. split; [now left|exact Hws].
    - destruct (IH Hout) as (ws' & Hin & Hi). exists ws'. split; auto.
      now right. }
  destruct Hex as (ws & Hin & Hi). exists ws, out.
  apply filter_In in Hin as [Hin Hne].
  repeat split; auto. intros E. now rewrite E in Hne.
Qed.

Lemma df_all_row_facts (ucd : UnicodeData) (lib : Library)
      (worksheets : list (pystr * list record)) (df : list Row) (r : Row) :
  df_all ucd lib worksheets = Ok df -> In r df ->
  dated lib r /\ complete r = true /\
  exists ws, In ws worksheets /\ snd ws <> [] /\ Month r = fst ws.
Proof.
  intros H Hr.
  destruct (df_all_row ucd lib worksheets df r H Hr)
    as (ws & out & Hws & Hne & Hi & Hro).
  destruct (ingest_row_facts ucd lib (fst ws) (snd ws) out r Hi Hro)
    as (Hm & Hd & Hc).
  split; [exact Hd|]. split; [exact Hc|]. now exists ws.
Qed.

(** X6. Every row of the unified table comes from the cleaned table of a
    worksheet with records: it carries the title of that worksheet as its
    month, has the three required values and both timestamps, a date and a
    week. *)
Theorem df_all_rows_dated (ucd : UnicodeData) (lib : Library)
        (worksheets : list (pystr * list record)) (df : list Row) :
  df_all ucd lib worksheets = Ok df ->
  Forall (fun r => dated lib r /\ complete r = true /\
                   exists ws, In ws worksheets /\ snd ws <> [] /\
                              Month r = fst ws) df.
Proof.
  intros H. apply Forall_forall. intros r Hr.
  now apply (df_all_row_facts ucd lib worksheets df).
Qed.

(** ** The groups of the aggregator *)

Lemma metrics_df_cols (period : Period) (df : list Row) :
  metrics_df period df = compute_metrics df (period_cols period).
Proof. now destruct period. Qed.

Lemma dated_group_key (lib : Library) (period : Period) (r : Row) :
  dated lib r -> exists k, group_key (period_cols period) r = Some k.
Proof.
  intros (it & rt & _ & _ & _ & Hd & Hw).
  destruct period; simpl; rewrite ?Hd, ?Hw; simpl; eauto.
Qed.

(** X7. The aggregator loses no row of the unified table: at each of the
    three granularities every row has a complete group key, lies in the
    group of that key and in no other, and that group has a row in the
    metrics table. *)
Theorem every_row_is_aggregated (ucd : UnicodeData) (lib : Library)
        (worksheets : list (pystr * list record)) (df : list Row) (r : Row)
        (period : Period) :
  df_all ucd lib worksheets = Ok df -> In r df ->
  let cols := period_cols period in
  exists k,
    group_key cols r = Some k /\
    In r (group df cols k) /\
    (forall k', In r (group df cols k') -> k' = k) /\
    In (group_metrics (combine cols k) (group df cols k))
       (metrics_df period df).
Proof.
  intros H Hr cols.
  destruct (df_all_row_facts ucd lib worksheets df r H Hr) as (Hd & _ & _).
  destruct (dated_group_key lib period r Hd) as (k & Hk).
  exists k. fold cols in Hk.
  destruct (compute_metrics_covers df cols r k Hr Hk) as [Hm Hg].
  split; [exact Hk|]. split; [exact Hg|]. split.
  - intros k' Hk'. apply in_group_rows in Hk' as [_ Hk']. congruence.
  - now rewrite metrics_df_cols.
Qed.

Lemma key_compare_antisym (a b : list KeyVal) :
  key_compare b a = CompOpp (key_compare a b).
Proof.
  revert b. induction a as [|x a IH]; intros [|y b]; simpl; try reflexivity.
  rewrite (keyval_compare_antisym x y).
  destruct (keyval_compare x y); simpl; auto.
Qed.

Lemma key_compare_eq (a b : list KeyVal) : key_compare a b = Eq -> a = b.
Proof.
  revert b. induction a as [|x a IH]; intros [|y b]; simpl;
    try reflexivity; try discriminate.
  destruct (keyval_compare x y) eqn:E; try discriminate.
  intros H. apply keyval_compare_eq in E. subst. f_equal. now apply IH.
Qed.

Lemma keyval_lt_trans (x y z : KeyVal) :
  keyval_compare x y = Lt -> keyval_compare y z = Lt ->
  keyval_compare x z = Lt.
Proof.
  intros Hxy Hyz.
  assert (H : not_Gt (keyval_compare x z) = true)
    by (apply (keyval_le_trans x y z); [now rewrite Hxy|now rewrite Hyz]).
  destruct (keyval_compare x z) eqn:E; try reflexivity; try discriminate.
  apply keyval_compare_eq in E. subst z.
  rewrite (keyval_compare_antisym x y), Hxy in Hyz. discriminate.
Qed.

Lemma key_leb_trans (a b c : list KeyVal) :
  key_leb a b = true -> key_leb b c = true -> key_leb a c = true.
Proof.
  unfold key_leb. revert b c.
  induction a as [|x a IH]; intros [|y b] [|z c]; simpl;
    try reflexivity; try discriminate.
  destruct (keyval_compare x y) eqn:Exy; try discriminate;
    destruct (keyval_compare y z) eqn:Eyz; try discriminate.
  - apply keyval_compare_eq in Exy, Eyz. subst.
    rewrite keyval_compare_refl. apply IH.
  - apply keyval_compare_eq in Exy. subst. now rewrite Eyz.
  - apply keyval_compare_eq in Eyz. subst. now rewrite Exy.
  - now rewrite (keyval_lt_trans x y z Exy Eyz).
Qed.

Lemma key_leb_total (a b : list KeyVal) :
  key_leb a b = true \/ key_leb b a = true.
Proof.
  unfold key_leb. rewrite (key_compare_antisym a b).
  destruct (key_compare a b); simpl; auto.
Qed.

Lemma key_leb_antisym (a b : list KeyVal) :
  key_leb a b = true -> key_leb b a = true -> a = b.
Proof.
  unfold key_leb. rewrite (key_compare_antisym a b).
  destruct (key_compare a b) eqn:E; simpl; try discriminate.
  intros _ _. now apply key_compare_eq.
Qed.

Lemma group_keys_NoDup (df : list Row) (group_cols : list GroupCol) :
  NoDup (group_keys df group_cols).
Proof.
  unfold group_keys.
  apply (Permutation_NoDup (Permutation_sym (sort_perm key_leb _))).
  apply NoDup_nodup.
Qed.

Lemma group_keys_length (df : list Row) (group_cols : list GroupCol)
      (k : list KeyVal) :
  In k (group_keys df group_cols) -> length k = length group_cols.
Proof.
  intros H. apply in_group_keys in H as (r & _ & H).
  now apply (group_key_length group_cols r).
Qed.

Lemma compute_metrics_NoDup (df : list Row) (group_cols : list GroupCol) :
  NoDup (map index (compute_metrics df group_cols)).
Proof.
  unfold compute_metrics. rewrite map_map. simpl.
  apply NoDup_map_NoDup_ForallPairs; [|apply group_keys_NoDup].
  intros k1 k2 H1 H2 E.
  apply (combine_injective group_cols);
    eauto using group_keys_length.
Qed.

(** X8. The metrics table has one row per group key, in ascending order of
    the keys (compared column by column, strings by code points and dates
    by time), and no two rows have the same key columns. *)
Theorem compute_metrics_sorted (df : list Row) (group_cols : list GroupCol) :
  map index (compute_metrics df group_cols)
  = map (combine group_cols) (group_keys df group_cols) /\
  StronglySorted (fun a b => key_leb a b = true) (group_keys df group_cols) /\
  NoDup (group_keys df group_cols) /\
  NoDup (map index (compute_metrics df group_cols)).
Proof.
  split; [|split; [|split]].
  - unfold compute_metrics. now rewrite map_map.
  - apply sort_sorted; [apply key_leb_total|apply key_leb_trans].
  - apply group_keys_NoDup.
  - apply compute_metrics_NoDup.
Qed.

(** ** The groups in machine arithmetic *)



Lemma lt0_not_gt0 (x : Machine.Scalar) :
  Machine.lt0 x = true -> Machine.gt0 x = false.
Proof.
  destruct x as [z|f]; simpl.
  - intros H. apply Z.ltb_lt in H. apply Z.ltb_ge. lia.
  - rewrite !ltb_spec. change (Prim2SF 0) with (S754_zero false).
    destruct (Prim2SF f) as [s|s| |s m e]; try destruct s;
      try discriminate; reflexivity.
Qed.

(** X21. A group whose customer total, as pandas computes it, is negative
    gets SAIDI, SAIFI and CAIDI 0: the row of a group without customers. *)
Theorem negative_machine_total_all_zero (np : Machine.Numpy)
        (df : Machine.Frame) (group_cols : list GroupCol)
        (k : list KeyVal) (g : Machine.Frame) :
  In (k, g) (Machine.groupby df group_cols) ->
  Machine.lt0 (Machine.customer_sum np g) = true ->
  let r := Machine.group_metrics np (combine group_cols k) g in
  In r (Machine.compute_metrics np df group_cols) /\
  Machine.SAIDI r = Machine.I64 0 /\ Machine.SAIFI r = Machine.I64 0 /\
  Machine.CAIDI r = Machine.I64 0.
Proof.
  intros Hkg Hneg r. split.
  - unfold Machine.compute_metrics. apply in_map_iff. now exists (k, g).
  - apply lt0_not_gt0 in Hneg.
    destruct (group_metrics_cases np (combine group_cols k) g) as [_ H].
    exact (H Hneg).
Qed.

(** ** The order of the rows *)

Section SortUnique.

Context {A : Type}.
Variable leb : A -> A -> bool.
Hypothesis leb_total : forall a b, leb a b = true \/ leb b a = true.
Hypothesis leb_trans :
  forall a b c, leb a b = true -> leb b c = true -> leb a c = true.
Hypothesis leb_antisym :
  forall a b, leb a b = true -> leb b a = true -> a = b.

Lemma sorted_perm_eq (l1 l2 : list A) :
  StronglySorted (fun a b => leb a b = true) l1 ->
  StronglySorted (fun a b => leb a b = true) l2 ->
  Permutation l1 l2 -> l1 = l2.
Proof.
  revert l2. induction l1 as [|a l1 IH]; intros l2 H1 H2 HP.
  - apply Permutation_nil in HP. now subst.
  - destruct l2 as [|b l2];
      [apply Permutation_sym, Permutation_nil in HP; discriminate|].
    inversion H1 as [|? ? S1 F1]; subst.
    inversion H2 as [|? ? S2 F2]; subst.
    rewrite Forall_forall in F1, F2.
    assert (Hrefl : forall x, leb x x = true)
      by (intros x; now destruct (leb_total x x)).
    assert (Hab : leb a b = true).
    { assert (Hin : In b (a :: l1))
        by (apply (Permutation_in _ (Permutation_sym HP)); now left).
      destruct Hin as [->|Hin]; [apply Hrefl|now apply F1]. }
    assert (Hba : leb b a = true).
    { assert (Hin : In a (b :: l2))
        by (apply (Permutation_in _ HP); now left).
      destruct Hin as [->|Hin]; [apply Hrefl|now apply F2]. }
    pose proof (leb_antisym a b Hab Hba). subst b.
    f_equal. apply IH; try assumption.
    now apply Permutation_cons_inv in HP.
Qed.

Lemma sort_perm_eq (l1 l2 : list A) :
  Permutation l1 l2 -> sort leb l1 = sort leb l2.
Proof.
  intros HP. apply sorted_perm_eq.
  - now apply sort_sorted.
  - now apply sort_sorted.
  - rewrite (sort_perm leb l1), (sort_perm leb l2). exact HP.
Qed.

End SortUnique.

Lemma group_keys_perm (df1 df2 : list Row) (group_cols : list GroupCol) :
  Permutation df1 df2 ->
  group_keys df1 group_cols = group_keys df2 group_cols.
Proof.
  intros HP. unfold group_keys.
  apply (sort_perm_eq key_leb key_leb_total key_leb_trans key_leb_antisym).
  apply NoDup_Permutation; try apply NoDup_nodup.
  intros k. rewrite !nodup_In.
  split; apply Permutation_in; apply Permutation_flat_map;
    [exact HP|now apply Permutation_sym].
Qed.

(** X10. The groups do not depend on the order of the rows of the table
    (hence not on the order of the worksheets): a rearranged table gives the
    same key columns in the same order, and each key the same rows, in the
    order they have in the rearranged table. *)
Theorem groups_order_independent (df1 df2 : list Row)
        (group_cols : list GroupCol) :
  Permutation df1 df2 ->
  map index (compute_metrics df1 group_cols)
  = map index (compute_metrics df2 group_cols) /\
  forall k, Permutation (group df1 group_cols k) (group df2 group_cols k).
Proof.
  intros HP. split.
  - unfold compute_metrics.
    rewrite (group_keys_perm df1 df2 group_cols HP), !map_map.
    reflexivity.
  - intros k. unfold group. clear -HP.
    induction HP as [|x l1 l2 _ IH|x y l|l1 l2 l3 _ IH1 _ IH2]; simpl.
    + constructor.
    + destruct (in_group group_cols k x); [now constructor|exact IH].
    + destruct (in_group group_cols k x), (in_group group_cols k y);
        try apply Permutation_refl. constructor.
    + now transitivity (filter (in_group group_cols k) l2).
Qed.

(** ** The options of the sidebar *)

Lemma pystr_eqb_eq (a b : pystr) : pystr_eqb a b = true <-> a = b.
Proof.
  unfold pystr_eqb. destruct (list_eq_dec N.eq_dec a b); split;
    congruence.
Qed.

Lemma existsb_pystr_eqb (k : pystr) (ls : list pystr) :
  existsb (pystr_eqb k) ls = true <-> In k ls.
Proof.
  rewrite existsb_exists. split.
  - intros (x & Hx & E). apply pystr_eqb_eq in E. now subst.
  - intros H. exists k. split; [exact H|now apply pystr_eqb_eq].
Qed.

Lemma add_label_In (k x : pystr) (ls : list pystr) :
  In x (add_label k ls) <-> x = k \/ In x ls.
Proof.
  unfold add_label. destruct (existsb (pystr_eqb k) ls) eqn:E.
  - apply existsb_pystr_eqb in E. split; [now right|].
    intros [->|H]; assumption.
  - rewrite in_app_iff. simpl. split.
    + intros [H|[<-|[]]]; [now right|now left].
    + intros [->|H]; [right; now left|now left].
Qed.

Lemma add_label_NoDup (k : pystr) (ls : list pystr) :
  NoDup ls -> NoDup (add_label k ls).
Proof.
  intros H. unfold add_label. destruct (existsb (pystr_eqb k) ls) eqn:E;
    [exact H|].
  apply (Permutation_NoDup (l := k :: ls)).
  - apply Permutation_cons_append.
  - constructor; [|exact H]. intros Hin.
    apply existsb_pystr_eqb in Hin. congruence.
Qed.

Lemma unique_In (x : pystr) (values : list pystr) :
  In x (unique values) <-> In x values.
Proof.
  unfold unique.
  assert (H : forall acc,
             In x (fold_left (fun ls k => add_label k ls) values acc)
             <-> In x acc \/ In x values).
  { induction values as [|v vs IH]; intros acc; simpl; [tauto|].
    rewrite IH, add_label_In. intuition. }
  rewrite H. simpl. tauto.
Qed.

Lemma unique_NoDup (values : list pystr) : NoDup (unique values).
Proof.
  unfold unique.
  assert (H : forall acc, NoDup acc ->
             NoDup (fold_left (fun ls k => add_label k ls) values acc)).
  { induction values as [|v vs IH]; intros acc Hacc; simpl; [exact Hacc|].
    apply IH. now apply add_label_NoDup. }
  apply H. constructor.
Qed.

Lemma pystr_leb_total (a b : pystr) :
  pystr_leb a b = true \/ pystr_leb b a = true.
Proof.
  unfold pystr_leb. rewrite (pystr_compare_antisym a b).
  destruct (pystr_compare a b); simpl; auto.
Qed.

Lemma sorted_unique_facts (values : list pystr) :
  let options := sort pystr_leb (unique values) in
  (forall x, In x options <-> In x values) /\
  NoDup options /\
  StronglySorted (fun a b => pystr_leb a b = true) options.
Proof.
  intros options. split; [|split].
  - intros x. unfold options. now rewrite sort_In, unique_In.
  - apply (Permutation_NoDup (Permutation_sym (sort_perm pystr_leb _))).
    apply unique_NoDup.
  - apply sort_sorted; [apply pystr_leb_total|].
    intros a b c. apply pystr_le_trans.
Qed.

(** X11. The month options are exactly the months of the unified table,
    each once, in ascending order of their code points. *)
Theorem month_options_spec (df_all : list Row) :
  (forall m, In m (month_options df_all) <->
             exists r, In r df_all /\ Month r = m) /\
  NoDup (month_options df_all) /\
  StronglySorted (fun a b => pystr_leb a b = true) (month_options df_all).
Proof.
  destruct (sorted_unique_facts (map Month df_all)) as (H1 & H2 & H3).
  split; [|now split].
  intros m. unfold month_options. rewrite H1, in_map_iff.
  split; intros (r & Hr); exists r; tauto.
Qed.

Lemma feeder_options_In (df_all : list Row) (selected_month f : pystr) :
  In f (feeder_options df_all selected_month) <->
  exists r, In r df_all /\ Month r = selected_month /\ Feeder_Name r = f.
Proof.
  unfold feeder_options.
  destruct (sorted_unique_facts
              (map Feeder_Name
                   (filter (fun r => pystr_eqb (Month r) selected_month)
                           df_all))) as (H1 & _ & _).
  rewrite H1, in_map_iff. split.
  - intros (r & Hf & Hr). apply filter_In in Hr as [Hr Hm].
    apply pystr_eqb_eq in Hm. now exists r.
  - intros (r & Hr & Hm & Hf). exists r. split; [exact Hf|].
    apply filter_In. split; [exact Hr|now apply pystr_eqb_eq].
Qed.

(** X12. The feeder options for a month are exactly the feeder names of the
    rows of that month, each once, in ascending order; for a month without
    rows there is no option. *)
Theorem feeder_options_spec (df_all : list Row) (selected_month : pystr) :
  let options := feeder_options df_all selected_month in
  (forall f, In f options <->
             exists r, In r df_all /\ Month r = selected_month /\
                       Feeder_Name r = f) /\
  NoDup options /\
  StronglySorted (fun a b => pystr_leb a b = true) options /\
  (~ In selected_month (month_options df_all) -> options = []).
Proof.
  intros options.
  destruct (sorted_unique_facts
              (map Feeder_Name
                   (filter (fun r => pystr_eqb (Month r) selected_month)
                           df_all))) as (_ & H2 & H3).
  split; [apply feeder_options_In|]. split; [exact H2|].
  split; [exact H3|].
  intros Hno. destruct options as [|f fs] eqn:E; [reflexivity|].
  exfalso. apply Hno.
  assert (Hf : In f (feeder_options df_all selected_month))
    by (fold options; rewrite E; now left).
  apply feeder_options_In in Hf as (r & Hr & Hm & _).
  unfold month_options. rewrite sort_In, unique_In, in_map_iff.
  now exists r.
Qed.

(** ** The page for a choice of the sidebar *)

Lemma page_nonempty (df_all : list Row) (period : Period)
      (selected_month selected_feeder : pystr) :
  let filtered := filtered_metrics (metrics_df period df_all)
                                   selected_month selected_feeder in
  filtered <> [] ->
  exists latest,
    In latest filtered /\
    page df_all period selected_month selected_feeder
    = Ok (Metric latest, Charts filtered (group_field period)).
Proof.
  intros filtered Hne. unfold page. fold filtered.
  unfold metrics_display, plots, bind.
  assert (Hs : sort_values (group_field period) filtered <> []).
  { intros E. apply Hne. apply Permutation_nil. rewrite <- E.
    apply sort_perm. }
  destruct (iloc_last_nonempty _ Hs) as (latest & Hl).
  exists latest. split.
  - apply iloc_last_In in Hl.
    now apply (Permutation_in _ (sort_perm _ _)) in Hl.
  - rewrite Hl. destruct filtered; [now elim Hne|reflexivity].
Qed.

Lemma pystr_eqb_refl (a : pystr) : pystr_eqb a a = true.
Proof. now apply pystr_eqb_eq. Qed.

Lemma row_is_filtered (lib : Library) (df : list Row) (period : Period)
      (r : Row) :
  In r df -> dated lib r ->
  exists m, In m (filtered_metrics (metrics_df period df)
                                   (Month r) (Feeder_Name r)).
Proof.
  intros Hr Hd. destruct (dated_group_key lib period r Hd) as (k & Hk).
  destruct (compute_metrics_covers df (period_cols period) r k Hr Hk)
    as [Hm _].
  eexists. apply filter_In. split.
  - rewrite metrics_df_cols. exact Hm.
  - destruct Hd as (it & rt & _ & _ & _ & HD & HW).
    destruct period; simpl in Hk; rewrite ?HD, ?HW in Hk; simpl in Hk;
      injection Hk as <-; unfold field_is, field; simpl;
      now rewrite !pystr_eqb_refl.
Qed.

(** X13. For a feeder that the sidebar offers for the selected month, the
    page shows the indices of a row at every granularity, never the
    warning: the filtered metrics are not empty, the row shown is one of
    them, and the charts show all of them. *)
Theorem sidebar_choice_shows_metrics (ucd : UnicodeData) (lib : Library)
        (worksheets : list (pystr * list record)) (df : list Row)
        (period : Period) (selected_month selected_feeder : pystr) :
  df_all ucd lib worksheets = Ok df ->
  In selected_feeder (feeder_options df selected_month) ->
  let filtered := filtered_metrics (metrics_df period df)
                                   selected_month selected_feeder in
  exists latest,
    In latest filtered /\
    page df period selected_month selected_feeder
    = Ok (Metric latest, Charts filtered (group_field period)).
Proof.
  intros H Hf filtered.
  apply feeder_options_In in Hf as (r & Hr & Hm & Hn).
  destruct (df_all_row_facts ucd lib worksheets df r H Hr) as (Hd & _ & _).
  destruct (row_is_filtered lib df period r Hr Hd) as (m & Hin).
  rewrite Hm, Hn in Hin.
  apply page_nonempty. fold filtered in Hin |- *.
  intros E. now rewrite E in Hin.
Qed.

Lemma NoDup_all_equal {A : Type} (l : list A) :
  NoDup l -> (forall a b, In a l -> In b l -> a = b) -> (length l <= 1)%nat.
Proof.
  intros Hnd Heq. destruct l as [|a [|b l]]; simpl; try lia.
  exfalso. inversion Hnd as [|? ? Hn _]; subst. apply Hn.
  rewrite (Heq a b); [now left|now left|right; now left].
Qed.

(** X14. At the monthly granularity a month and a feeder select at most one
    row of the metrics table, so the monthly charts have at most one
    point. *)
Theorem monthly_filter_at_most_one (df_all : list Row)
        (selected_month selected_feeder : pystr) :
  (length (filtered_metrics (metrics_df Monthly df_all)
                            selected_month selected_feeder) <= 1)%nat.
Proof.
  apply NoDup_all_equal.
  - apply NoDup_filter. simpl. unfold monthly_metrics.
    apply (NoDup_map_inv index), compute_metrics_NoDup.
  - intros a b Ha Hb.
    apply (filtered_field_injective df_all Monthly selected_month
             selected_feeder); try assumption.
    apply filter_In in Ha as [_ Ha]. apply filter_In in Hb as [_ Hb].
    apply andb_true_iff in Ha as [Ha _]. apply andb_true_iff in Hb as [Hb _].
    apply field_is_true in Ha, Hb. simpl. congruence.
Qed.

(** ** Worksheets without records, and worksheets that fail *)

Lemma load_with_records (ucd : UnicodeData) (lib : Library)
      (worksheets : list (pystr * list record)) :
  forall all_data,
    load ucd lib worksheets all_data
    = load ucd lib (with_records worksheets) all_data.
Proof.
  induction worksheets as [|[month data] rest IH]; intros all_data;
    [reflexivity|].
  destruct data as [|rec0 data']; simpl; [apply IH|].
  destruct (ingest ucd lib month (rec0 :: data')); simpl;
    [apply IH|reflexivity].
Qed.

(** X15. Worksheets without records have no effect: the unified table, or
    the error, is that of the worksheets with records alone. *)
Theorem empty_worksheets_are_skipped (ucd : UnicodeData) (lib : Library)
        (worksheets : list (pystr * list record)) :
  df_all ucd lib worksheets = df_all ucd lib (with_records worksheets).
Proof. unfold df_all. now rewrite load_with_records. Qed.

Lemma load_app (ucd : UnicodeData) (lib : Library)
      (pre rest : list (pystr * list record)) :
  forall all_data,
    load ucd lib (pre ++ rest) all_data
    = bind (load ucd lib pre all_data) (load ucd lib rest).
Proof.
  induction pre as [|[month data] pre IH]; intros all_data; [reflexivity|].
  simpl. destruct data as [|rec0 data']; [apply IH|].
  destruct (ingest ucd lib month (rec0 :: data')); simpl;
    [apply IH|reflexivity].
Qed.

(** X16. The load has no partial result: when the cleaning of a worksheet
    with records raises and the worksheets before it were cleaned, the
    script raises that same exception, whatever the worksheets after it
    hold. *)
Theorem first_failing_worksheet_aborts (ucd : UnicodeData) (lib : Library)
        (pre post : list (pystr * list record)) (frames : list (list Row))
        (month : pystr) (data : list record) (e : Exception) :
  Forall2 (fun ws f => ingest ucd lib (fst ws) (snd ws) = Ok f)
          (with_records pre) frames ->
  data <> [] ->
  ingest ucd lib month data = Raise e ->
  df_all ucd lib (pre ++ (month, data) :: post) = Raise e.
Proof.
  intros Hpre Hne He. unfold df_all.
  rewrite load_app, (load_ok ucd lib pre frames Hpre []). simpl.
  destruct data as [|rec0 data']; [now elim Hne|]. now rewrite He.
Qed.

Lemma filter_none {A : Type} (f : A -> bool) (l : list A) :
  (forall x, In x l -> f x = false) -> filter f l = [].
Proof.
  induction l as [|a l IH]; intros H; [reflexivity|]. simpl.
  rewrite (H a (or_introl eq_refl)). apply IH. intros x Hx. apply H.
  now right.
Qed.

(** X17. A worksheet with records in which no column label, once stripped,
    is one of the five labels the script reads is not cleaned: the loop
    body raises, and raises the KeyError of that label when it is "Feeder
    Name", the first column read. *)
Theorem missing_column_raises (ucd : UnicodeData) (lib : Library)
        (month : pystr) (data : list record) (label : pystr) :
  In label required_columns ->
  (forall k, In k (columns data) -> strip k <> label) ->
  (exists e, ingest ucd lib month data = Raise e) /\
  (label = lit "Feeder Name" ->
   ingest ucd lib month data = Raise (KeyError label)).
Proof.
  intros Hl Hno.
  assert (Hc : column data label = Raise (KeyError label)).
  { unfold column. rewrite filter_none; [reflexivity|].
    intros k Hk. destruct (pystr_eqb (strip k) label) eqn:E; [|reflexivity].
    apply pystr_eqb_eq in E. now elim (Hno k Hk). }
  assert (Hs : subset_columns data label = Raise (KeyError label)).
  { unfold subset_columns. rewrite filter_none; [reflexivity|].
    intros k Hk. destruct (pystr_eqb (strip k) label) eqn:E; [|reflexivity].
    apply pystr_eqb_eq in E. now elim (Hno k Hk). }
  split.
  - unfold ingest, typed_rows, bind.
    destruct Hl as [<-|[<-|[<-|[<-|[<-|[]]]]]];
      repeat match goal with
             | |- context [column data ?l] =>
                 destruct (column data l) eqn:?
             end; try discriminate; eauto.
    rewrite Hs. eauto.
  - intros ->. unfold ingest, typed_rows, bind. now rewrite Hc.
Qed.

(** ** Column labels with surrounding whitespace *)

Lemma fold_add_label_fresh (l : list pystr) :
  NoDup l -> forall acc, (forall x, In x l -> ~ In x acc) ->
  fold_left (fun ls k => add_label k ls) l acc = acc ++ l.
Proof.
  induction 1 as [|k l Hk Hnd IH]; intros acc Hacc; simpl;
    [now rewrite app_nil_r|].
  assert (E : add_label k acc = acc ++ [k]).
  { unfold add_label. destruct (existsb (pystr_eqb k) acc) eqn:Ex;
      [|reflexivity].
    apply existsb_pystr_eqb in Ex. now elim (Hacc k (or_introl eq_refl)). }
  rewrite E, IH, <- app_assoc; [reflexivity|].
  intros x Hx Hin. apply in_app_iff in Hin as [Hin|[<-|[]]].
  - apply (Hacc x); [now right|exact Hin].
  - now apply Hk.
Qed.

Lemma fold_add_label_known (l acc : list pystr) :
  (forall x, In x l -> In x acc) ->
  fold_left (fun ls k => add_label k ls) l acc = acc.
Proof.
  induction l as [|k l IH]; intros H; simpl; [reflexivity|].
  assert (E : add_label k acc = acc).
  { unfold add_label.
    now rewrite (proj2 (existsb_pystr_eqb k acc) (H k (or_introl eq_refl))). }
  rewrite E. apply IH. intros x Hx. apply H. now right.
Qed.

Lemma columns_of_header (data : list record) (hdr : list pystr) :
  data <> [] -> Forall (fun r => map fst r = hdr) data -> NoDup hdr ->
  columns data = hdr.
Proof.
  intros Hne Hall Hnd. destruct data as [|r rest]; [now elim Hne|].
  inversion Hall as [|? ? Hr Hrest]; subst.
  unfold columns. simpl. rewrite fold_left_app.
  rewrite (fold_add_label_fresh (map fst r) Hnd []); [|intros x _ []].
  simpl. apply fold_add_label_known.
  intros x Hx. apply in_flat_map in Hx as (r' & Hr' & Hx).
  rewrite Forall_forall in Hrest. now rewrite (Hrest r' Hr') in Hx.
Qed.

Lemma filter_single (f : pystr -> pystr) (l : list pystr) (k : pystr) :
  NoDup (map f l) -> In k l ->
  filter (fun x => pystr_eqb (f x) (f k)) l = [k].
Proof.
  induction l as [|a l IH]; intros Hnd Hk; [destruct Hk|].
  simpl in Hnd. inversion Hnd as [|? ? Ha Hnd']; subst. simpl.
  destruct Hk as [->|Hk].
  - rewrite pystr_eqb_refl. f_equal. apply filter_none.
    intros x Hx. destruct (pystr_eqb (f x) (f k)) eqn:E; [|reflexivity].
    apply pystr_eqb_eq in E. elim Ha. rewrite <- E. now apply in_map.
  - destruct (pystr_eqb (f a) (f k)) eqn:E.
    + apply pystr_eqb_eq in E. elim Ha. rewrite E. now apply in_map.
    + now apply IH.
Qed.

(** X18. Whitespace around a column label does not matter: when the records
    share one header whose stripped labels are distinct, the column selected
    by a stripped label holds, record by record, the value stored under the
    label as the worksheet writes it. *)
Theorem column_ignores_label_whitespace (data : list record)
        (hdr : list pystr) (k : pystr) :
  data <> [] ->
  Forall (fun r => map fst r = hdr) data ->
  NoDup (map strip hdr) ->
  In k hdr ->
  column data (strip k) = Ok (map (dict_get k) data).
Proof.
  intros Hne Hall Hnd Hk. unfold column.
  rewrite (columns_of_header data hdr Hne Hall (NoDup_map_inv strip hdr Hnd)).
  now rewrite (filter_single strip hdr k Hnd Hk).
Qed.

(** ** The sign of a duration *)

Lemma duration_sign (i r : Z) :
  let d := inject_Z (r - i) / inject_Z 1000000000 / inject_Z 3600 in
  d * inject_Z 3600000000000 == inject_Z (r - i) /\
  (d < 0 <-> (r < i)%Z) /\ (d == 0 <-> r = i).
Proof.
  intros d.
  assert (E : d * inject_Z 3600000000000 == inject_Z (r - i)).
  { unfold d. change (inject_Z 3600000000000)
      with (inject_Z 1000000000 * inject_Z 3600).
    field. }
  assert (Hpos : 0 < inject_Z 3600000000000) by reflexivity.
  split; [exact E|]. split; split; intros H.
  - assert (H' : inject_Z (r - i) < 0).
    { rewrite <- E. setoid_replace 0 with (0 * inject_Z 3600000000000) by ring.
      now apply Qmult_lt_compat_r. }
    unfold Qlt in H'. simpl in H'. lia.
  - assert (H' : inject_Z (r - i) < 0) by (unfold Qlt; simpl; lia).
    rewrite <- E in H'.
    destruct (Qlt_le_dec d 0) as [Hd|Hd]; [exact Hd|].
    exfalso. pose proof (Qmult_le_compat_r 0 d _ Hd (Qlt_le_weak _ _ Hpos)).
    lra.
  - rewrite H in E. unfold Qeq in E. simpl in E. lia.
  - subst r. rewrite Z.sub_diag in E. apply Qmult_integral in E as [E|E];
      [exact E|discriminate].
Qed.

Lemma typed_rows_duration (ucd : UnicodeData) (lib : Library)
      (month : pystr) (data : list record) (rows : list Row) (r : Row) :
  typed_rows ucd lib month data = Ok rows -> In r rows ->
  Duration_hr r = duration_hr (Interruption_Time r) (Restoration_Time r).
Proof.
  intros H Hr.
  destruct (typed_rows_In ucd lib month data rows r H Hr)
    as (f & i1 & i2 & c & fc & it & rt & i & ->).
  reflexivity.
Qed.

(** X19. The sign of a duration plays no part in the cleaning: a row of the
    table before [dropna] that has both timestamps, a customer number and no
    missing fault category is in the cleaned table, whichever timestamp
    comes first; its duration is negative exactly when the restoration
    precedes the interruption and zero exactly when the two coincide. *)
Theorem ingest_keeps_negative_durations (ucd : UnicodeData) (lib : Library)
        (month : pystr) (data : list record) (rows : list Row) (r : Row)
        (it rt : Z) :
  typed_rows ucd lib month data = Ok rows -> In r rows ->
  Interruption_Time r = Some it -> Restoration_Time r = Some rt ->
  Customer_No r <> None -> ~ In CNull (Fault_Category r) ->
  exists d,
    Duration_hr r = Some d /\
    (d < 0 <-> (rt < it)%Z) /\ (d == 0 <-> rt = it) /\
    exists out, ingest ucd lib month data = Ok out /\ In r out.
Proof.
  intros H Hr Hi Hrt Hc Hf.
  pose proof (typed_rows_duration ucd lib month data rows r H Hr) as Hd.
  rewrite Hi, Hrt in Hd. simpl in Hd.
  exists (inject_Z (rt - it) / inject_Z 1000000000 / inject_Z 3600).
  split; [exact Hd|].
  destruct (duration_sign it rt) as (_ & Hneg & Hzero).
  split; [exact Hneg|]. split; [exact Hzero|].
  exists (dropna rows). split.
  - unfold ingest, bind. now rewrite H.
  - apply filter_In. split; [exact Hr|].
    apply complete_iff. rewrite Hd. repeat split; [exact Hc|discriminate|exact Hf].
Qed.

(** ** Examples of the further properties *)

Lemma replace_escaped_newlines_unescapes_witness :
  Forall (fun c => c <> BACKSLASH) Demo.key_text /\
  replace_escaped_newlines (escape_newlines Demo.key_text) = Demo.key_text.
Proof.
  assert (H : Forall (fun c => c <> BACKSLASH) Demo.key_text)
    by (repeat (constructor; [discriminate|]); constructor).
  split; [exact H|].
  exact (replace_escaped_newlines_unescapes Demo.key_text H).
Defined.

Lemma blank_name_cleans_to_empty_witness :
  clean_feeder_name Demo.ucd Demo.lib (CStr [0x20; 0x09; 0xA0; 0x2003]%N) = [].
Proof.
  apply (blank_name_cleans_to_empty Demo.ucd Demo.lib). reflexivity.
Defined.

Lemma Demo_ingest_january :
  ingest Demo.ucd Demo.lib (fst Demo.january) (snd Demo.january)
  = Ok Demo.january_rows.
Proof. vm_compute. reflexivity. Qed.

Lemma Demo_df_all : df_all Demo.ucd Demo.lib Demo.worksheets = Ok Demo.table.
Proof. vm_compute. reflexivity. Qed.

Lemma ingest_rows_dated_witness :
  Forall (fun r => Month r = lit "Jan" /\ dated Demo.lib r) Demo.january_rows.
Proof.
  exact (ingest_rows_dated Demo.ucd Demo.lib (fst Demo.january)
           (snd Demo.january) Demo.january_rows Demo_ingest_january).
Defined.

Lemma ingest_feeder_names_clean_witness :
  Forall (fun r => single_spaced (Feeder_Name r) /\
                   clean_feeder_name Demo.ucd Demo.lib (CStr (Feeder_Name r))
                   = Feeder_Name r) Demo.january_rows.
Proof.
  exact (ingest_feeder_names_clean Demo.ucd Demo.lib (fst Demo.january)
           (snd Demo.january) Demo.january_rows Demo_fully_decomposed
           Demo_space_is_inert Demo_ingest_january).
Defined.

Lemma df_all_rows_dated_witness :
  Forall (fun r => dated Demo.lib r /\ complete r = true /\
                   exists ws, In ws Demo.worksheets /\ snd ws <> [] /\
                              Month r = fst ws) Demo.table.
Proof.
  exact (df_all_rows_dated Demo.ucd Demo.lib Demo.worksheets Demo.table
           Demo_df_all).
Defined.

Lemma every_row_is_aggregated_witness :
  In Demo.first_row Demo.table /\
  exists k,
    group_key (period_cols Weekly) Demo.first_row = Some k /\
    In Demo.first_row (group Demo.table (period_cols Weekly) k) /\
    (forall k', In Demo.first_row (group Demo.table (period_cols Weekly) k')
                -> k' = k) /\
    In (group_metrics (combine (period_cols Weekly) k)
                      (group Demo.table (period_cols Weekly) k))
       (metrics_df Weekly Demo.table).
Proof.
  assert (H : In Demo.first_row Demo.table) by (left; reflexivity).
  split; [exact H|].
  exact (every_row_is_aggregated Demo.ucd Demo.lib Demo.worksheets Demo.table
           Demo.first_row Weekly Demo_df_all H).
Defined.

Lemma groups_order_independent_witness :
  rev Demo.table <> Demo.table /\
  map index (compute_metrics Demo.table Demo.monthly)
  = map index (compute_metrics (rev Demo.table) Demo.monthly) /\
  forall k, Permutation (group Demo.table Demo.monthly k)
                        (group (rev Demo.table) Demo.monthly k).
Proof.
  split; [vm_compute; discriminate|].
  exact (groups_order_independent Demo.table (rev Demo.table)
           Demo.monthly (Permutation_rev Demo.table)).
Defined.

Lemma sidebar_choice_shows_metrics_witness :
  In (lit "Feeder A") (feeder_options Demo.table (lit "Jan")) /\
  let filtered := filtered_metrics (metrics_df Weekly Demo.table)
                                   (lit "Jan") (lit "Feeder A") in
  exists latest,
    In latest filtered /\
    page Demo.table Weekly (lit "Jan") (lit "Feeder A")
    = Ok (Metric latest, Charts filtered (group_field Weekly)).
Proof.
  assert (H : In (lit "Feeder A") (feeder_options Demo.table (lit "Jan")))
    by (vm_compute; left; reflexivity).
  split; [exact H|].
  exact (sidebar_choice_shows_metrics Demo.ucd Demo.lib Demo.worksheets
           Demo.table Weekly (lit "Jan") (lit "Feeder A") Demo_df_all H).
Defined.

Lemma first_failing_worksheet_aborts_witness :
  ingest Demo.ucd Demo.lib (fst Demo.april) (snd Demo.april)
  = Raise (KeyError (lit "Interruption Time")) /\
  df_all Demo.ucd Demo.lib
         ([Demo.january] ++ (fst Demo.april, snd Demo.april) :: [Demo.march])
  = Raise (KeyError (lit "Interruption Time")).
Proof.
  assert (H : ingest Demo.ucd Demo.lib (fst Demo.april) (snd Demo.april)
              = Raise (KeyError (lit "Interruption Time")))
    by (vm_compute; reflexivity).
  split; [exact H|].
  apply (first_failing_worksheet_aborts Demo.ucd Demo.lib [Demo.january]
           [Demo.march] [Demo.january_rows]).
  - change (with_records [Demo.january]) with [Demo.january].
    constructor; [exact Demo_ingest_january|constructor].
  - discriminate.
  - exact H.
Defined.

Lemma missing_column_raises_witness :
  (exists e, ingest Demo.ucd Demo.lib (fst Demo.april) (snd Demo.april)
             = Raise e) /\
  (lit "Customer No" = lit "Feeder Name" ->
   ingest Demo.ucd Demo.lib (fst Demo.april) (snd Demo.april)
   = Raise (KeyError (lit "Customer No"))).
Proof.
  apply (missing_column_raises Demo.ucd Demo.lib (fst Demo.april)
           (snd Demo.april) (lit "Customer No")).
  - do 3 right. left. reflexivity.
  - intros k Hk. vm_compute in Hk. destruct Hk as [<-|[]].
    vm_compute. discriminate.
Defined.

Lemma column_ignores_label_whitespace_witness :
  strip (lit "Customer No ") = lit "Customer No" /\
  column (snd Demo.january) (strip (lit "Customer No "))
  = Ok (map (dict_get (lit "Customer No ")) (snd Demo.january)).
Proof.
  split; [reflexivity|].
  apply (column_ignores_label_whitespace (snd Demo.january)
           Demo.sheet_header).
  - discriminate.
  - unfold Demo.january. simpl snd.
    repeat (constructor; [reflexivity|]). constructor.
  - vm_compute.
    repeat (constructor;
            [simpl; intros H;
             repeat (destruct H as [H|H]; [discriminate H|]); exact H|]).
    constructor.
  - do 3 right. left. reflexivity.
Defined.

Example ingest_may :
  typed_rows Demo.ucd Demo.lib (fst Demo.may) (snd Demo.may)
  = Ok [Demo.may_row].
Proof. vm_compute. reflexivity. Qed.

Lemma ingest_keeps_negative_durations_witness :
  (1715338800000000000 < 1715342400000000000)%Z /\
  exists d,
    Duration_hr Demo.may_row = Some d /\
    (d < 0 <-> (1715338800000000000 < 1715342400000000000)%Z) /\
    (d == 0 <-> 1715338800000000000%Z = 1715342400000000000%Z) /\
    exists out, ingest Demo.ucd Demo.lib (fst Demo.may) (snd Demo.may) = Ok out
                /\ In Demo.may_row out.
Proof.
  split; [reflexivity|].
  apply (ingest_keeps_negative_durations Demo.ucd Demo.lib (fst Demo.may)
           (snd Demo.may) [Demo.may_row] Demo.may_row).
  - exact ingest_may.
  - now left.
  - reflexivity.
  - reflexivity.
  - discriminate.
  - simpl. intros [H|[]]. discriminate H.
Defined.


Lemma negative_machine_total_all_zero_witness :
  Machine.Customer Demo.march_group = Machine.Int64 [-20; 5]%Z /\
  Machine.customer_sum Demo.numpy Demo.march_group = Machine.I64 (-15) /\
  let r := Machine.group_metrics Demo.numpy
             (combine Demo.monthly Demo.key_C_Mar) Demo.march_group in
  In r (Machine.compute_metrics Demo.numpy Demo.counts Demo.monthly) /\
  Machine.SAIDI r = Machine.I64 0 /\ Machine.SAIFI r = Machine.I64 0 /\
  Machine.CAIDI r = Machine.I64 0.
Proof.
  split; [reflexivity|]. split; [reflexivity|].
  apply (negative_machine_total_all_zero Demo.numpy Demo.counts Demo.monthly
           Demo.key_C_Mar Demo.march_group).
  - vm_compute. right. left. reflexivity.
  - reflexivity.
Defined.
